(** * sister: chunk planning, unit execution, aggregation and job tracking

    A shallow embedding of the coordination code of the repository:

    - [mpi/mpi_service.py]: [split_video_into_chunks], [process_chunk] and
      the master's merge step of [parallel_process_video];
    - [translate-backend/app/utils/job_manager.py]: the [JobManager];
    - [translate-backend/app/services/MPITranslationService.py]: the
      wrapper that launches the MPI run and decides when to use it.

    Conventions of the embedding.

    - Python [float] time stamps (seconds) are idealised as exact rationals
      [Q]; comparisons are the rational ones and equality of time stamps is
      [Qeq].  Rounding of binary64 arithmetic is not modelled.
    - Python [int] is [Z]; [str] is [string]; [None]-able values are
      [option]; a [dict] used as a record is a [Record].
    - A call that may raise returns an [outcome]; external capabilities
      (ffmpeg, the Whisper model, the translator, Redis, the clock, uuid4)
      are explicit arguments that describe what the call observed. *)

From Stdlib Require Import ZArith QArith Lia Ascii String Sorted Permutation.
From stdpp Require Import gmap strings list fin_maps pretty sorting.

Open Scope Z_scope.

(** ** Exceptions and outcomes *)

Inductive exn : Type :=
  | ZeroDivisionError
  | CalledProcessError
  | AttributeError
  | TimeoutExpired
  | Exception (msg : string).

Inductive outcome (A : Type) : Type :=
  | Ret (a : A)
  | Raise (e : exn).

Arguments Ret {A} a.
Arguments Raise {A} e.

Definition returns {A} (m : outcome A) : Prop := exists a, m = Ret a.
Definition raises {A} (m : outcome A) : Prop := exists e, m = Raise e.

(** ** Python built-ins used by the source *)

(** [range(n)]: the integers [0, 1, ..., n-1]; empty when [n <= 0]. *)
Definition range (n : Z) : list Z := map Z.of_nat (seq 0 (Z.to_nat n)).

(** [min(a, b)] on two arguments: [b] replaces [a] only when [b < a]. *)
Definition py_min (a b : Q) : Q := if Qlt_le_dec b a then b else a.

(** Truthiness of a [str]: the empty string is falsy. *)
Definition str_truthy (s : string) : bool :=
  match s with
  | EmptyString => false
  | String _ _ => true
  end.

(** Truthiness of an optional string argument ([None] and [""] are falsy). *)
Definition opt_str_truthy (o : option string) : bool :=
  match o with
  | Some s => str_truthy s
  | None => false
  end.

(** ** Chunk Planner: [MPITranslationService.split_video_into_chunks] *)

Record Chunk : Type := mkChunk {
  chunk_id : Z;
  start_time : Q;
  end_time : Q;
  video_path : string
}.

(** The dictionary appended by one iteration of the loop (lines 49-57). *)
Definition make_chunk (video_path : string) (duration chunk_duration : Q)
    (i : Z) : Chunk :=
  {| chunk_id := i;
     start_time := (inject_Z i * chunk_duration)%Q;
     end_time := py_min (inject_Z (i + 1) * chunk_duration)%Q duration;
     video_path := video_path |}.

(** [duration] is the value read from [VideoFileClip(video_path).duration]
    (lines 41-43).  [duration / num_chunks] raises when [num_chunks] is
    [0]; the loop appends one chunk per element of [range(num_chunks)]. *)
Definition split_video_into_chunks (video_path : string) (duration : Q)
    (num_chunks : Z) : outcome (list Chunk) :=
  if num_chunks =? 0 then Raise ZeroDivisionError
  else
    let chunk_duration := (duration / inject_Z num_chunks)%Q in
    Ret (fold_left
           (fun chunks i =>
              chunks ++ [make_chunk video_path duration chunk_duration i])
           (range num_chunks) []).

(** ** Unit Executor: [MPITranslationService.process_chunk] *)

(** What the Whisper model yields for a chunk: times local to the chunk. *)
Module WhisperSegment.
Record t : Type := mk { start : Q; end_ : Q; text : string }.
End WhisperSegment.

(** The [info] object returned with the segments; [language] is [None]
    when the object has no such attribute. *)
Record TranscriptionInfo : Type := { info_language : option string }.

(** One entry of [transcriptions] (keys [start], [end], [text],
    [translated_text]). *)
Record Transcription : Type := mkTranscription {
  start : Q;
  end_ : Q;
  text : string;
  translated_text : option string
}.

(** The dictionary returned by [process_chunk] (lines 132-136). *)
Module UnitResult.
Record t : Type := mk {
  chunk_id : Z;
  transcriptions : list Transcription;
  language : string
}.
End UnitResult.

(** How the [ffmpeg] run ended.  [check=True] turns a non-zero exit into
    [CalledProcessError]; the output file may or may not have been
    written by then. *)
Inductive FfmpegResult : Type :=
  | FfmpegDone
  | FfmpegFailed (wrote_output : bool).

(** The external capabilities of one worker.
    - [ffmpeg video ss to out]: the command
      [ffmpeg -i video -ss ss -to to -vn -acodec pcm_s16le -ar 16000
       -ac 1 -y out];
    - [transcribe path]: [whisper_model.transcribe(path, beam_size=5)]
      together with the iteration over the segments it yields;
    - [translate target text]:
      [GoogleTranslator(source='auto', target=target).translate(text)]. *)
Record Capabilities : Type := {
  ffmpeg : string -> Q -> Q -> string -> FfmpegResult;
  transcribe :
    string -> outcome (list WhisperSegment.t * TranscriptionInfo);
  translate : string -> string -> outcome string
}.

(** [str.strip()] for ASCII white space. *)
Definition is_space (c : ascii) : bool :=
  let n := nat_of_ascii c in
  ((n =? 32) || ((9 <=? n) && (n <=? 13)))%nat.

Fixpoint lstrip (l : list ascii) : list ascii :=
  match l with
  | c :: l' => if is_space c then lstrip l' else l
  | [] => []
  end.

Definition strip (s : string) : string :=
  string_of_list_ascii
    (rev (lstrip (rev (lstrip (list_ascii_of_string s))))).

(** [workspace / f"chunk_{chunk_id}_rank_{self.rank}.wav"] (line 88). *)
Definition audio_chunk_path (chunk_id rank : Z) : string :=
  "/mpi/workspace/chunk_" +:+ pretty chunk_id +:+ "_rank_" +:+ pretty rank
  +:+ ".wav".

(** The body of the loop over the segments (lines 106-124): only the
    translation is guarded by [try]/[except]. *)
Definition transcription_of (cap : Capabilities)
    (target_language : option string) (start_time : Q)
    (segment : WhisperSegment.t) : Transcription :=
  let text := strip (WhisperSegment.text segment) in
  let translated_text :=
    match target_language with
    | Some target =>
        if str_truthy target then
          match translate cap target text with
          | Ret translated => Some translated
          | Raise _ => Some text
          end
        else None
    | None => None
    end in
  {| start := (WhisperSegment.start segment + start_time)%Q;
     end_ := (WhisperSegment.end_ segment + start_time)%Q;
     text := text;
     translated_text := translated_text |}.

(** [process_chunk] on the worker of rank [rank].  The file system is the
    set [fs] of existing files; the result is what the call returns or
    raises, and the file system afterwards.  Creating the workspace
    directory (line 86) is taken to succeed. *)
Definition process_chunk (rank : Z) (cap : Capabilities) (chunk : Chunk)
    (target_language : option string) (fs : gset string)
    : outcome UnitResult.t * gset string :=
  let audio := audio_chunk_path (chunk_id chunk) rank in
  match ffmpeg cap (video_path chunk) (start_time chunk) (end_time chunk)
          audio with
  | FfmpegFailed wrote =>
      (Raise CalledProcessError, if wrote then {[audio]} ∪ fs else fs)
  | FfmpegDone =>
      let fs := {[audio]} ∪ fs in
      match transcribe cap audio with
      | Raise e => (Raise e, fs)
      | Ret (segments, info) =>
          let transcriptions :=
            fold_left
              (fun acc segment =>
                 acc ++ [transcription_of cap target_language
                           (start_time chunk) segment])
              segments [] in
          let fs := if decide (audio ∈ fs) then fs ∖ {[audio]} else fs in
          (Ret {| UnitResult.chunk_id := chunk_id chunk;
                  UnitResult.transcriptions := transcriptions;
                  UnitResult.language :=
                    match info_language info with
                    | Some l => l
                    | None => "unknown"
                    end |},
           fs)
      end
  end.

(** ** Aggregator: the master's merge step of [parallel_process_video] *)

(** [list.sort(key=...)]: a stable sort that compares keys with [<].
    Insertion from the right puts an element before the first element whose
    key is not smaller, so elements with equal keys keep their order. *)
Section PySort.
Context {A K : Type} (ltb : K -> K -> bool) (key : A -> K).

Fixpoint insert_by (x : A) (l : list A) : list A :=
  match l with
  | [] => [x]
  | y :: l' => if ltb (key y) (key x) then y :: insert_by x l' else x :: l
  end.

Definition py_sort (l : list A) : list A := foldr insert_by [] l.
End PySort.

(** [a < b] on time stamps. *)
Definition Qltb (a b : Q) : bool := negb (Qle_bool b a).

(** The result of the merge (lines 198-203). *)
Module AggregateResult.
Record t : Type := mk {
  transcriptions : list Transcription;
  language : string;
  total_segments : Z;
  workers_used : Z
}.
End AggregateResult.

(** The merge reads three keys of every gathered dictionary and nothing
    else; any dictionary that has them can be merged. *)
Class ResultDict (R : Type) : Type := {
  get_chunk_id : R -> Z;
  get_transcriptions : R -> list Transcription;
  get_language : R -> string
}.

#[export] Instance UnitResult_dict : ResultDict UnitResult.t := {|
  get_chunk_id := UnitResult.chunk_id;
  get_transcriptions := UnitResult.transcriptions;
  get_language := UnitResult.language
|}.

(** [for chunk_result in all_results: all_transcriptions.extend(...)]. *)
Definition extend_all {R} `{ResultDict R} (all_results : list R)
    : list Transcription :=
  fold_left (fun acc chunk_result => acc ++ get_transcriptions chunk_result)
    all_results [].

(** Lines 182-203, run by the master ([size] is [self.size]). *)
Definition master_merge {R} `{ResultDict R} (size : Z) (all_results : list R)
    : AggregateResult.t :=
  let all_results := py_sort Z.ltb get_chunk_id all_results in
  let all_transcriptions := extend_all all_results in
  let all_transcriptions := py_sort Qltb start all_transcriptions in
  {| AggregateResult.transcriptions := all_transcriptions;
     AggregateResult.language :=
       match all_results with
       | first :: _ => get_language first
       | [] => "unknown"
       end;
     AggregateResult.total_segments :=
       Z.of_nat (length all_transcriptions);
     AggregateResult.workers_used := size |}.

(** Every rank runs [process_chunk] on the chunk scattered to it (rank [i]
    receives [chunks[i]]).  A rank whose [process_chunk] raises leaves
    [parallel_process_video] before the gather, so the collective yields a
    result list only when every rank returned. *)
Fixpoint run_ranks (caps : Z -> Capabilities)
    (target_language : option string) (rank : Z) (chunks : list Chunk)
    (fs : gset string) : outcome (list UnitResult.t) * gset string :=
  match chunks with
  | [] => (Ret [], fs)
  | chunk :: chunks' =>
      let '(result, fs) :=
        process_chunk rank (caps rank) chunk target_language fs in
      let '(rest, fs) :=
        run_ranks caps target_language (rank + 1) chunks' fs in
      (match result, rest with
       | Ret r, Ret rs => Ret (r :: rs)
       | Raise e, _ => Raise e
       | Ret _, Raise e => Raise e
       end, fs)
  end.

(** [parallel_process_video] as seen from the master: plan one chunk per
    worker, scatter, process, gather, merge. *)
Definition parallel_process_video (size : Z) (caps : Z -> Capabilities)
    (video_path : string) (duration : Q) (target_language : option string)
    (fs : gset string) : outcome AggregateResult.t * gset string :=
  match split_video_into_chunks video_path duration size with
  | Raise e => (Raise e, fs)
  | Ret chunks =>
      let '(all_results, fs) := run_ranks caps target_language 0 chunks fs in
      match all_results with
      | Raise e => (Raise e, fs)
      | Ret all_results => (Ret (master_merge size all_results), fs)
      end
  end.

(** ** Job records: [job_manager.py] *)

Inductive JobStatus : Type := PENDING | PROCESSING | COMPLETED | FAILED.

(** [JobStatus.X.value]. *)
Definition value (s : JobStatus) : string :=
  match s with
  | PENDING => "pending"
  | PROCESSING => "processing"
  | COMPLETED => "completed"
  | FAILED => "failed"
  end.

(** JSON values, for the [result] payload of a job. *)
#[warnings="-register-all"]
Inductive json : Type :=
  | JNull
  | JBool (b : bool)
  | JInt (n : Z)
  | JFloat (q : Q)
  | JStr (s : string)
  | JList (l : list json)
  | JDict (d : list (string * json)).

(** A [dict] payload; the empty dictionary is falsy. *)
Definition pydict : Type := list (string * json).

Definition dict_truthy (d : pydict) : bool :=
  match d with
  | [] => false
  | _ :: _ => true
  end.

(** The [status] argument of [update_job]: a [JobStatus] member or, as the
    [isinstance] test allows, a plain string. *)
Inductive StatusArg : Type :=
  | Member (s : JobStatus)
  | Plain (s : string).

(** [status.value if isinstance(status, JobStatus) else status]. *)
Definition status_text (a : StatusArg) : string :=
  match a with
  | Member s => value s
  | Plain s => s
  end.

(** [JobStatus] mixes in [str], so a member is truthy as its value is. *)
Definition status_truthy (a : StatusArg) : bool := str_truthy (status_text a).

(** The job dictionary built by [create_job] (lines 67-78). *)
Module Job.
Record t : Type := mk {
  job_id : string;
  status : string;
  video_filename : string;
  target_language : option string;
  created_at : string;
  updated_at : string;
  progress : Z;
  message : string;
  result : option pydict;
  error : option string
}.
End Job.

(** The Redis server as the manager uses it: keys with a value and an
    expiry time (seconds on the server's clock).  The value is the JSON
    text of a job; [json.loads (json.dumps job)] is [job] for these
    dictionaries, so the store keeps the job itself. *)
Definition redis_setex (db : gmap string (Job.t * Z)) (clock : Z)
    (key : string) (ttl : Z) (v : Job.t) : gmap string (Job.t * Z) :=
  <[key := (v, clock + ttl)]> db.

Definition redis_get (db : gmap string (Job.t * Z)) (clock : Z)
    (key : string) : option Job.t :=
  match db !! key with
  | Some (v, expires) => if clock <? expires then Some v else None
  | None => None
  end.

Definition redis_delete (db : gmap string (Job.t * Z)) (clock : Z)
    (key : string) : Z * gmap string (Job.t * Z) :=
  match redis_get db clock key with
  | Some _ => (1, delete key db)
  | None => (0, delete key db)
  end.

(** What one Redis command meets: whether it reaches the server (it raises
    otherwise) and the server's clock when it runs. *)
Record RedisCall : Type := { up : bool; clock : Z }.

(** The singleton after [__init__]: with [_use_redis] set there is a
    client and no [_jobs] attribute; otherwise [_jobs] is the store. *)
Inductive JobManager : Type :=
  | RedisBacked (client : gmap string (Job.t * Z))
  | InMemory (_jobs : gmap string Job.t).

Definition _use_redis (jm : JobManager) : bool :=
  match jm with
  | RedisBacked _ => true
  | InMemory _ => false
  end.

Definition job_prefix : string := "job:".
Definition job_ttl : Z := 3600 * 24.

(** [__init__] (lines 32-59): [ping_ok] tells whether [client.ping()]
    succeeded against the server holding [db]. *)
Definition init (ping_ok : bool) (db : gmap string (Job.t * Z))
    : JobManager :=
  if ping_ok then RedisBacked db else InMemory ∅.

Definition _make_key (job_id : string) : string := job_prefix +:+ job_id.

(** [create_job]: [uuid4] is the identifier drawn, [created] and [updated]
    the two readings of [datetime.utcnow().isoformat()].  When [setex]
    raises, the handler assigns into [self._jobs], which a Redis-backed
    manager does not have. *)
Definition create_job (jm : JobManager) (uuid4 created updated : string)
    (rc : RedisCall) (video_filename : string)
    (target_language : option string) : outcome string * JobManager :=
  let job_id := uuid4 in
  let job_data :=
    {| Job.job_id := job_id;
       Job.status := value PENDING;
       Job.video_filename := video_filename;
       Job.target_language := target_language;
       Job.created_at := created;
       Job.updated_at := updated;
       Job.progress := 0;
       Job.message := "Job created, waiting to start...";
       Job.result := None;
       Job.error := None |} in
  match jm with
  | RedisBacked client =>
      if up rc then
        (Ret job_id,
         RedisBacked
           (redis_setex client (clock rc) (_make_key job_id) job_ttl
              job_data))
      else (Raise AttributeError, jm)
  | InMemory _jobs => (Ret job_id, InMemory (<[job_id := job_data]> _jobs))
  end.

(** [get_job] (lines 125-138). *)
Definition get_job (jm : JobManager) (rc : RedisCall) (job_id : string)
    : option Job.t :=
  match jm with
  | RedisBacked client =>
      if up rc then redis_get client (clock rc) (_make_key job_id)
      else None
  | InMemory _jobs => _jobs !! job_id
  end.

(** The field assignments of [update_job] (lines 100-111). *)
Definition apply_update (job : Job.t) (utcnow : string)
    (status : option StatusArg) (progress : option Z)
    (message : option string) (result : option pydict)
    (error : option string) : Job.t :=
  {| Job.job_id := Job.job_id job;
     Job.status :=
       match status with
       | Some a => if status_truthy a then status_text a else Job.status job
       | None => Job.status job
       end;
     Job.video_filename := Job.video_filename job;
     Job.target_language := Job.target_language job;
     Job.created_at := Job.created_at job;
     Job.updated_at := utcnow;
     Job.progress :=
       match progress with
       | Some p => p
       | None => Job.progress job
       end;
     Job.message :=
       match message with
       | Some m => if str_truthy m then m else Job.message job
       | None => Job.message job
       end;
     Job.result :=
       match result with
       | Some r => if dict_truthy r then Some r else Job.result job
       | None => Job.result job
       end;
     Job.error :=
       match error with
       | Some e => if str_truthy e then Some e else Job.error job
       | None => Job.error job
       end |}.

(** [update_job] (lines 92-123): [rc_get] is met by the [get] inside
    [get_job], [rc_set] by the [setex] that writes the job back. *)
Definition update_job (jm : JobManager) (rc_get rc_set : RedisCall)
    (utcnow : string) (job_id : string) (status : option StatusArg)
    (progress : option Z) (message : option string)
    (result : option pydict) (error : option string) : bool * JobManager :=
  match get_job jm rc_get job_id with
  | None => (false, jm)
  | Some job =>
      let job := apply_update job utcnow status progress message result
                   error in
      match jm with
      | RedisBacked client =>
          if up rc_set then
            (true,
             RedisBacked
               (redis_setex client (clock rc_set) (_make_key job_id)
                  job_ttl job))
          else (false, jm)
      | InMemory _jobs => (true, InMemory (<[job_id := job]> _jobs))
      end
  end.

(** [delete_job] (lines 140-153). *)
Definition delete_job (jm : JobManager) (rc : RedisCall) (job_id : string)
    : bool * JobManager :=
  match jm with
  | RedisBacked client =>
      if up rc then
        let '(n, client) :=
          redis_delete client (clock rc) (_make_key job_id) in
        (0 <? n, RedisBacked client)
      else (false, jm)
  | InMemory _jobs =>
      match _jobs !! job_id with
      | Some _ => (true, InMemory (delete job_id _jobs))
      | None => (false, jm)
      end
  end.

(** A status after which the specification allows no further change. *)
Definition terminal (status : string) : bool :=
  (String.eqb status (value COMPLETED) || String.eqb status (value FAILED)).

(** ** The backend wrapper: [services/MPITranslationService.py] *)

Record MPITranslationService : Type := {
  mpi_enabled : bool;
  mpi_master_host : string;
  mpi_hostfile : string;
  mpi_script : string;
  workspace : string
}.

(** [_check_mpi_available]: the outcome of [which mpirun] is its return
    code, or an exception. *)
Definition _check_mpi_available (which : outcome Z) : bool :=
  match which with
  | Ret returncode => returncode =? 0
  | Raise _ => false
  end.

(** [__init__] (lines 19-29); [host] is the value of [MPI_MASTER_HOST]. *)
Definition init_service (which : outcome Z) (host : option string)
    : MPITranslationService :=
  {| mpi_enabled := _check_mpi_available which;
     mpi_master_host := default "mpi-master" host;
     mpi_hostfile := "/etc/mpi/hostfile";
     mpi_script := "/mpi/mpi_service.py";
     workspace := "/mpi/workspace" |}.

(** [should_use_mpi] (lines 133-156): [probe] is what reading
    [VideoFileClip(video_path).duration] gave. *)
Definition should_use_mpi (self : MPITranslationService) (probe : outcome Q)
    : bool :=
  if negb (mpi_enabled self) then false
  else
    match probe with
    | Ret duration => Qltb 60 duration
    | Raise _ => false
    end.

(** [Path(p).name]: the last non-empty component of a POSIX path
    (components that are a single dot aside). *)
Fixpoint last_component (cur prev : list ascii) (l : list ascii)
    : list ascii :=
  let keep := match cur with [] => prev | _ :: _ => cur end in
  match l with
  | [] => keep
  | c :: l' =>
      if Ascii.eqb c "/" then last_component [] keep l'
      else last_component (cur ++ [c]) prev l'
  end.

Definition path_name (p : string) : string :=
  string_of_list_ascii (last_component [] [] (list_ascii_of_string p)).

(** What [process_video_parallel] meets outside the program:
    [mkdir_ok] and [copy_ok] tell whether [workspace.mkdir] and
    [shutil.copy] succeed; [run cmd fs] is [subprocess.run] on the
    [mpirun] command line, giving the return code and the files present
    afterwards, or raising (a timeout included); [load] is [json.load] on
    the result file. *)
Record Launch : Type := {
  mkdir_ok : bool;
  copy_ok : bool;
  run : list string -> gset string -> outcome (Z * gset string);
  load : outcome json
}.

(** The command line built at lines 80-90. *)
Definition mpirun_cmd (self : MPITranslationService) (video_path : string)
    (target_language : option string) (num_workers : Z) : list string :=
  ["mpirun"; "-np"; pretty num_workers; "-hostfile"; mpi_hostfile self;
   "--allow-run-as-root"; "python3"; mpi_script self; video_path]
  ++ (if opt_str_truthy target_language
      then [default "" target_language] else []).

(** [process_video_parallel] (lines 43-131).  Every exception inside the
    [try] ends in [return None]. *)
Definition process_video_parallel (self : MPITranslationService)
    (env : Launch) (fs : gset string) (video_path : string)
    (target_language : option string) (num_workers : Z)
    : option json * gset string :=
  if negb (mpi_enabled self) then (None, fs)
  else if negb (mkdir_ok env) then (None, fs)
  else
    let workspace_video := workspace self +:+ "/" +:+ path_name video_path in
    let in_workspace := String.prefix (workspace self) video_path in
    let must_copy :=
      negb in_workspace && negb (bool_decide (workspace_video ∈ fs)) in
    if must_copy && negb (copy_ok env) then (None, fs)
    else
      let fs := if must_copy then {[workspace_video]} ∪ fs else fs in
      let video_path := if in_workspace then video_path else workspace_video in
      let cmd := mpirun_cmd self video_path target_language num_workers in
      match run env cmd fs with
      | Raise _ => (None, fs)
      | Ret (returncode, fs) =>
          if negb (returncode =? 0) then (None, fs)
          else if bool_decide (workspace self +:+ "/mpi_result.json" ∈ fs)
          then
            match load env with
            | Ret mpi_result => (Some mpi_result, fs)
            | Raise _ => (None, fs)
            end
          else (None, fs)
      end.

(** The UnitResult of the specification: the dictionary of the source
    with a [status] and an [error] key added.  No code of the repository
    writes or reads these two keys; the record serves to state what the
    merge does with a result that is marked failed. *)
Inductive UnitStatus : Type := ok | failed.

Module ReportedResult.
Record t : Type := mk {
  chunk_id : Z;
  transcriptions : list Transcription;
  language : string;
  status : UnitStatus;
  error : option string
}.
End ReportedResult.

#[export] Instance ReportedResult_dict : ResultDict ReportedResult.t := {|
  get_chunk_id := ReportedResult.chunk_id;
  get_transcriptions := ReportedResult.transcriptions;
  get_language := ReportedResult.language
|}.


(** ** Notions used to state the properties *)

(** The segments of a gathered result, each paired with the [chunk_id] of
    the result it belongs to. *)
Definition tag_result {R} `{ResultDict R} (r : R) : list (Z * Transcription) :=
  map (pair (get_chunk_id r)) (get_transcriptions r).

(** [b] may follow [a] in the merged sequence: starts do not decrease, and
    among equal starts chunk ids do not decrease. *)
Definition in_merge_order (a b : Z * Transcription) : Prop :=
  (start a.2 <= start b.2)%Q
  /\ ((start b.2 <= start a.2)%Q -> a.1 <= b.1).

(** The merge of lines 186-193 carried out on the tagged segments. *)
Definition tagged_merge {R} `{ResultDict R} (all_results : list R)
    : list (Z * Transcription) :=
  py_sort Qltb (start ∘ snd)
    (py_sort Z.ltb get_chunk_id all_results ≫= tag_result).

(** The store takes the write [rc]: always for the in-memory store, when
    the command reaches the server for Redis. *)
Definition accepts (jm : JobManager) (rc : RedisCall) : Prop :=
  _use_redis jm = true -> up rc = true.

(** The read [rc] sees what the write [written] stored: always for the
    in-memory store; for Redis the command reaches the server before the
    key expires. *)
Definition sees (jm : JobManager) (written rc : RedisCall) : Prop :=
  _use_redis jm = true -> up rc = true /\ clock rc < clock written + job_ttl.

(** ** Sample data for the examples *)

Definition finished_job : Job.t :=
  {| Job.job_id := "j1";
     Job.status := "completed";
     Job.video_filename := "talk.mp4";
     Job.target_language := Some "id";
     Job.created_at := "2024-05-01T10:00:00";
     Job.updated_at := "2024-05-01T10:05:00";
     Job.progress := 100;
     Job.message := "Done";
     Job.result := Some [("total_segments", JInt 3)];
     Job.error := None |}.

Definition memory_store : JobManager := InMemory {[ "j1" := finished_job ]}.

Definition redis_store : JobManager :=
  RedisBacked {[ "job:j1" := (finished_job, 86700) ]}.

(** A Redis command that reaches the server at time [t]. *)
Definition at_time (t : Z) : RedisCall := {| up := true; clock := t |}.

(** A worker whose Whisper model fails on every file. *)
Definition broken_whisper : Capabilities :=
  {| ffmpeg := fun _ _ _ _ => FfmpegDone;
     transcribe := fun _ => Raise (Exception "model failed");
     translate := fun _ text => Ret text |}.

(** A worker whose translator is unreachable. *)
Definition broken_translator : Capabilities :=
  {| ffmpeg := fun _ _ _ _ => FfmpegDone;
     transcribe := fun _ =>
       Ret ([WhisperSegment.mk 0 4 " halo dunia "; WhisperSegment.mk 4 9 "apa kabar"],
            {| info_language := Some "id" |});
     translate := fun _ _ => Raise (Exception "network unreachable") |}.

Definition second_chunk : Chunk :=
  {| chunk_id := 1; start_time := 60; end_time := 120;
     video_path := "/mpi/workspace/talk.mp4" |}.

(** Three gathered results of which the middle one is marked failed. *)
Definition gathered_with_failure : list ReportedResult.t :=
  [ {| ReportedResult.chunk_id := 0;
       ReportedResult.transcriptions := [mkTranscription 0 5 "a" None];
       ReportedResult.language := "id";
       ReportedResult.status := ok;
       ReportedResult.error := None |};
    {| ReportedResult.chunk_id := 1;
       ReportedResult.transcriptions := [];
       ReportedResult.language := "unknown";
       ReportedResult.status := failed;
       ReportedResult.error := Some "transcription failed" |};
    {| ReportedResult.chunk_id := 2;
       ReportedResult.transcriptions := [mkTranscription 120 126 "c" None];
       ReportedResult.language := "id";
       ReportedResult.status := ok;
       ReportedResult.error := None |} ].

(** A backend on a host without [mpirun]. *)
Definition no_mpi : MPITranslationService := init_service (Ret 1) None.

(** A backend with [mpirun] installed, and a run that ends well and
    leaves the result file. *)
Definition with_mpi : MPITranslationService := init_service (Ret 0) None.

Definition good_launch : Launch :=
  {| mkdir_ok := true;
     copy_ok := true;
     run := fun _ fs => Ret (0, {["/mpi/workspace/mpi_result.json"]} ∪ fs);
     load := Ret (JDict [("total_segments", JInt 3); ("workers_used", JInt 3)])
  |}.

(** ** The transcription cache: [cache/redis_cache.py] *)

(** The Redis commands the cache uses, on a store of dictionaries.  As for
    the jobs, the value stands for its JSON text.  [SETEX] with an expire
    time that is not positive is refused by the server (the client raises);
    [None] stands for that. *)
Definition redis_setex_checked {V} (db : gmap string (V * Z)) (now : Z)
    (key : string) (ttl : Z) (v : V) : option (gmap string (V * Z)) :=
  if 0 <? ttl then Some (<[key := (v, now + ttl)]> db) else None.

Definition redis_get_live {V} (db : gmap string (V * Z)) (now : Z)
    (key : string) : option V :=
  match db !! key with
  | Some (v, expires) => if now <? expires then Some v else None
  | None => None
  end.

Module RedisCache.

(** [client] is [None] after a failed [ping] in [__init__]. *)
Record t : Type := mk {
  default_ttl : Z;
  client : option (gmap string (pydict * Z))
}.

(** [__init__] (lines 19-43): [timeout] is [CACHE_DEFAULT_TIMEOUT] read as
    an integer, 3600 when unset. *)
Definition init (timeout : option Z) (ping_ok : bool)
    (db : gmap string (pydict * Z)) : t :=
  {| default_ttl := default 3600 timeout;
     client := if ping_ok then Some db else None |}.

Section WithDigest.
(** [hashlib.md5(data.encode()).hexdigest()]. *)
Variable md5_hexdigest : string -> string.

(** [_generate_key] (lines 45-49); [target_language or 'original']. *)
Definition _generate_key (video_path : string)
    (target_language : option string) : string :=
  let key_data :=
    video_path +:+ ":"
    +:+ (if opt_str_truthy target_language
         then default "" target_language else "original") in
  "transcription:" +:+ md5_hexdigest key_data.

(** [get] (lines 51-77). *)
Definition get (self : t) (rc : RedisCall) (video_path : string)
    (target_language : option string) : option pydict :=
  match client self with
  | None => None
  | Some db =>
      if up rc then
        redis_get_live db (clock rc) (_generate_key video_path target_language)
      else None
  end.

(** [set] (lines 79-104); [ttl or self.default_ttl]. *)
Definition set (self : t) (rc : RedisCall) (video_path : string)
    (result : pydict) (target_language : option string) (ttl : option Z)
    : t :=
  match client self with
  | None => self
  | Some db =>
      let key := _generate_key video_path target_language in
      let ttl :=
        match ttl with
        | Some n => if n =? 0 then default_ttl self else n
        | None => default_ttl self
        end in
      if up rc then
        match redis_setex_checked db (clock rc) key ttl result with
        | Some db => {| default_ttl := default_ttl self; client := Some db |}
        | None => self
        end
      else self
  end.

(** [delete] (lines 106-116). *)
Definition delete (self : t) (rc : RedisCall) (video_path : string)
    (target_language : option string) : t :=
  match client self with
  | None => self
  | Some db =>
      if up rc then
        {| default_ttl := default_ttl self;
           client :=
             Some (base.delete (_generate_key video_path target_language) db)
        |}
      else self
  end.

End WithDigest.
End RedisCache.

(** ** The database pool: [db/connection_pool.py] *)

(** [s.split(sep)] for a separator of one character. *)
Fixpoint split_chars (sep : ascii) (cur : list ascii) (l : list ascii)
    : list (list ascii) :=
  match l with
  | [] => [cur]
  | c :: l' =>
      if Ascii.eqb c sep then cur :: split_chars sep [] l'
      else split_chars sep (cur ++ [c]) l'
  end.

Definition py_split (sep : ascii) (s : string) : list string :=
  map string_of_list_ascii (split_chars sep [] (list_ascii_of_string s)).

(** The calls made on a session, in the order they are made. *)
Inductive SessionOp : Type := Commit | Rollback | Close.

(** What the calls on a session do when they are made. *)
Record SessionEnv : Type := {
  commit_result : outcome unit;
  rollback_result : outcome unit;
  close_result : outcome unit
}.

Module DatabaseConnectionPool.

(** The variables of the environment that [__init__] reads. *)
Record Environ : Type := {
  POSTGRES_MASTER_HOST : option string;
  POSTGRES_MASTER_PORT : option string;
  POSTGRES_SLAVE_HOSTS : option string;
  POSTGRES_USER : option string;
  POSTGRES_PASSWORD : option string;
  POSTGRES_DB : option string
}.

(** An engine, known by the connection string it was created with. *)
Record Engine : Type := { connection_string : string }.

Record t : Type := mk {
  master_host : string;
  master_port : string;
  slave_hosts : list string;
  db_user : string;
  db_password : string;
  db_name : string;
  master_engine : Engine;
  slave_engines : list Engine
}.

(** [_create_engine] (lines 48-63). *)
Definition _create_engine (db_user db_password db_name host port : string)
    : Engine :=
  {| connection_string :=
       "postgresql://" +:+ db_user +:+ ":" +:+ db_password +:+ "@" +:+ host
       +:+ ":" +:+ port +:+ "/" +:+ db_name |}.

(** [[h.strip() for h in slave_hosts_str.split(',') if h.strip()]]. *)
Definition parse_slave_hosts (slave_hosts_str : string) : list string :=
  map strip (filter (fun h => str_truthy (strip h) = true)
               (py_split "," slave_hosts_str)).

(** [__init__] (lines 21-46). *)
Definition init (env : Environ) : t :=
  let master_host := default "localhost" (POSTGRES_MASTER_HOST env) in
  let master_port := default "5432" (POSTGRES_MASTER_PORT env) in
  let slave_hosts :=
    parse_slave_hosts (default "" (POSTGRES_SLAVE_HOSTS env)) in
  let db_user := default "postgres" (POSTGRES_USER env) in
  let db_password := default "postgres" (POSTGRES_PASSWORD env) in
  let db_name := default "transvidio" (POSTGRES_DB env) in
  let master_engine :=
    _create_engine db_user db_password db_name master_host master_port in
  {| master_host := master_host;
     master_port := master_port;
     slave_hosts := slave_hosts;
     db_user := db_user;
     db_password := db_password;
     db_name := db_name;
     master_engine := master_engine;
     slave_engines :=
       match slave_hosts with
       | [] => [master_engine]
       | _ :: _ =>
           map (fun host =>
                  _create_engine db_user db_password db_name host "5432")
             slave_hosts
       end |}.

(** The [finally] clause of both sessions: [close] is called, and what it
    raises replaces the outcome so far. *)
Definition finally_close {A} (s : SessionEnv)
    (so_far : outcome A * list SessionOp) : outcome A * list SessionOp :=
  match close_result s with
  | Ret _ => (so_far.1, so_far.2 ++ [Close])
  | Raise e => (Raise e, so_far.2 ++ [Close])
  end.



(** [random.choice(seq)]: the element at a drawn index below the length;
    it raises on an empty sequence. *)
Definition choice {A} (draw : nat) (seq : list A) : outcome A :=
  match seq !! (draw `mod` length seq)%nat with
  | Some x => Ret x
  | None => Raise (Exception "Cannot choose from an empty sequence")
  end.

(** [get_slave_session] (lines 85-103): the outcome of the [with]
    statement, the engine the session is bound to, and the calls made on
    the session. *)
Definition get_slave_session {A} (self : t) (draw : nat) (s : SessionEnv)
    (body : outcome A) : outcome A * option Engine * list SessionOp :=
  match choice draw (slave_engines self) with
  | Raise e => (Raise e, None, [])
  | Ret slave_engine =>
      let '(r, ops) := finally_close s (body, []) in
      (r, Some slave_engine, ops)
  end.

End DatabaseConnectionPool.

(** [c in s]. *)
Fixpoint has_char (c : ascii) (s : string) : bool :=
  match s with
  | EmptyString => false
  | String a s' => Ascii.eqb a c || has_char c s'
  end.

(** * Properties *)

(** ** Chunk Planner *)

Lemma fold_left_append_map {A B} (f : A -> B) (l : list A) (acc : list B) :
  fold_left (fun chunks i => chunks ++ [f i]) l acc = acc ++ map f l.
Proof.
  revert acc; induction l as [|a l IH]; intros acc; simpl.
  - by rewrite app_nil_r.
  - rewrite IH. by rewrite <- app_assoc.
Qed.

Lemma range_length n : length (range n) = Z.to_nat n.
Proof. unfold range. by rewrite length_map, length_seq. Qed.

Lemma range_lookup n (i : nat) :
  (i < Z.to_nat n)%nat -> range n !! i = Some (Z.of_nat i).
Proof.
  intros Hi. unfold range. rewrite list_lookup_fmap.
  rewrite lookup_seq_lt by done. done.
Qed.

Lemma range_nonpos n : n <= 0 -> range n = [].
Proof.
  intros Hn. unfold range. replace (Z.to_nat n) with 0%nat by lia. done.
Qed.

Lemma split_chunks_eq path d n :
  n <> 0 ->
  split_video_into_chunks path d n =
    Ret (map (make_chunk path d (d / inject_Z n)%Q) (range n)).
Proof.
  intros Hn. unfold split_video_into_chunks.
  destruct (Z.eqb_spec n 0) as [->|_]; [done|].
  by rewrite fold_left_append_map.
Qed.

Lemma chunks_lookup path d cd n (i : nat) c :
  map (make_chunk path d cd) (range n) !! i = Some c ->
  (i < Z.to_nat n)%nat /\ c = make_chunk path d cd (Z.of_nat i).
Proof.
  intros H. assert (Hlt : (i < Z.to_nat n)%nat).
  { apply lookup_lt_Some in H. by rewrite length_map, range_length in H. }
  split; [done|].
  rewrite list_lookup_fmap, range_lookup in H by done.
  simpl in H. congruence.
Qed.








Example scenario_A :
  exists c0 c1 c2,
    split_video_into_chunks "talk.mp4" 180 3 = Ret [c0; c1; c2]
    /\ (start_time c0 == 0 /\ end_time c0 == 60)%Q
    /\ (start_time c1 == 60 /\ end_time c1 == 120)%Q
    /\ (start_time c2 == 120 /\ end_time c2 == 180)%Q.
Proof.
  do 3 eexists. split; [reflexivity|]. by vm_compute.
Qed.

Example path_name_examples :
  path_name "/uploads/talk.mp4" = "talk.mp4"
  /\ path_name "/uploads/dir//" = "dir"
  /\ path_name "talk.mp4" = "talk.mp4"
  /\ strip "  hello world
" = "hello world".
Proof. by vm_compute. Qed.

(** C7 (as the code has it).  The planner checks neither argument.  With
    n = 0 the division raises [ZeroDivisionError]; with n < 0 the loop body
    never runs and the empty list is returned; with n > 0 and a duration
    that is not positive it returns n chunks like for any other duration. *)
Theorem split_video_into_chunks_unchecked (path : string) (d : Q) (n : Z) :
  n <= 0 \/ (d <= 0)%Q ->
  (n = 0 /\ split_video_into_chunks path d n = Raise ZeroDivisionError)
  \/ (n < 0 /\ split_video_into_chunks path d n = Ret [])
  \/ (0 < n /\ (d <= 0)%Q /\
      exists chunks, split_video_into_chunks path d n = Ret chunks
        /\ Z.of_nat (length chunks) = n
        /\ forall c, c ∈ chunks -> (end_time c <= d)%Q).
Proof.
  intros Hbad. destruct (Z.lt_trichotomy n 0) as [Hn|[->|Hn]].
  - right; left. split; [done|].
    rewrite split_chunks_eq by lia. by rewrite range_nonpos by lia.
  - left. done.
  - right; right. split; [done|]. destruct Hbad as [?|Hd]; [lia|].
    split; [done|]. eexists. split; [apply split_chunks_eq; lia|].
    split; [rewrite length_map, range_length; lia|].
    intros c Hc. apply list_elem_of_lookup in Hc as [i Hc].
    apply chunks_lookup in Hc as [_ ->]. simpl.
    unfold py_min. destruct (Qlt_le_dec _ _); [apply Qle_refl|done].
Qed.

Lemma split_video_into_chunks_unchecked_witness :
  (0 = 0 /\ split_video_into_chunks "talk.mp4" 180 0
            = Raise ZeroDivisionError)
  \/ (0 < 0 /\ split_video_into_chunks "talk.mp4" 180 0 = Ret [])
  \/ (0 < 0 /\ (180 <= 0)%Q /\
      exists chunks, split_video_into_chunks "talk.mp4" 180 0 = Ret chunks
        /\ Z.of_nat (length chunks) = 0
        /\ forall c, c ∈ chunks -> (end_time c <= 180)%Q).
Proof.
  apply (split_video_into_chunks_unchecked "talk.mp4" 180 0). left. lia.
Defined.

(** C7 (as stated) fails: a negative worker count and a zero duration are
    both answered with a chunk list, not with a failure. *)
Lemma split_video_into_chunks_no_InvalidInput :
  ~ (forall path d n, n <= 0 \/ (d <= 0)%Q ->
       raises (split_video_into_chunks path d n)).
Proof.
  intros H. destruct (H "talk.mp4" 180%Q (-1)) as [e He]; [left; lia|].
  vm_compute in He. discriminate He.
Qed.

Example split_negative_count :
  split_video_into_chunks "talk.mp4" 180 (-1) = Ret [].
Proof. reflexivity. Qed.

Example split_zero_duration :
  exists c0 c1,
    split_video_into_chunks "talk.mp4" 0 2 = Ret [c0; c1]
    /\ (start_time c0 == 0 /\ end_time c0 == 0)%Q
    /\ (start_time c1 == 0 /\ end_time c1 == 0)%Q.
Proof. do 2 eexists. split; [reflexivity|]. by vm_compute. Qed.

(** ** Aggregator *)

Section PySortFacts.
Context {A K : Type} (ltb : K -> K -> bool) (key : A -> K).

Lemma insert_by_perm x l : insert_by ltb key x l ≡ₚ x :: l.
Proof.
  induction l as [|y l IH]; simpl; [done|].
  destruct (ltb (key y) (key x)); [|done].
  rewrite IH. apply perm_swap.
Qed.

Lemma py_sort_perm l : py_sort ltb key l ≡ₚ l.
Proof.
  induction l as [|x l IH]; simpl; [done|].
  rewrite insert_by_perm. by rewrite IH.
Qed.

(** Sorting by a key that looks through [f] is sorting the images: the
    sort moves elements by their keys only. *)
Lemma insert_by_map {B} (f : B -> A) x l :
  map f (insert_by ltb (key ∘ f) x l) = insert_by ltb key (f x) (map f l).
Proof.
  induction l as [|y l IH]; simpl; [done|].
  destruct (ltb (key (f y)) (key (f x))); simpl; [by rewrite IH|done].
Qed.

Lemma py_sort_map {B} (f : B -> A) l :
  map f (py_sort ltb (key ∘ f) l) = py_sort ltb key (map f l).
Proof.
  induction l as [|x l IH]; simpl; [done|].
  by rewrite insert_by_map, IH.
Qed.

(** Sortedness, with a secondary order [second] that the input already
    respects: ties of the key keep the secondary order. *)
Context (le : K -> K -> Prop) (second : A -> A -> Prop).
Hypothesis le_trans : forall a b c, le a b -> le b c -> le a c.
Hypothesis ltb_lt : forall a b, ltb a b = true -> le a b /\ ~ le b a.
Hypothesis ltb_ge : forall a b, ltb a b = false -> le b a.

Let ordered (x y : A) : Prop :=
  le (key x) (key y) /\ (le (key y) (key x) -> second x y).

Lemma insert_by_ordered x l :
  StronglySorted ordered l -> Forall (second x) l ->
  StronglySorted ordered (insert_by ltb key x l).
Proof.
  induction l as [|y l IH]; intros Hs Hx; simpl.
  - repeat constructor.
  - apply StronglySorted_inv in Hs as [Hs Hy].
    apply Forall_cons in Hx as [Hxy Hx].
    destruct (ltb (key y) (key x)) eqn:E.
    + apply ltb_lt in E as [Hle Hnle].
      constructor; [by apply IH|].
      rewrite insert_by_perm. constructor; [|done].
      split; [done|]. intros ?. by destruct Hnle.
    + apply ltb_ge in E.
      constructor; [by constructor|].
      constructor; [by split|].
      rewrite Forall_forall in Hy, Hx |- *. intros z Hz.
      split; [|intros _; by apply Hx].
      apply le_trans with (key y); [done|]. by apply Hy.
Qed.

Lemma py_sort_ordered l :
  StronglySorted second l -> StronglySorted ordered (py_sort ltb key l).
Proof.
  induction l as [|x l IH]; intros Hs; simpl; [constructor|].
  apply StronglySorted_inv in Hs as [Hs Hx].
  apply insert_by_ordered; [by apply IH|]. by rewrite py_sort_perm.
Qed.
End PySortFacts.

Lemma Qltb_lt a b : Qltb a b = true -> (a <= b)%Q /\ ~ (b <= a)%Q.
Proof.
  unfold Qltb. intros H. apply negb_true_iff in H.
  assert (Hn : ~ (b <= a)%Q).
  { intros Hle. apply Qle_bool_iff in Hle. congruence. }
  split; [|done]. apply Qlt_le_weak. by apply Qnot_le_lt.
Qed.

Lemma Qltb_ge a b : Qltb a b = false -> (b <= a)%Q.
Proof.
  unfold Qltb. intros H. apply negb_false_iff in H. by apply Qle_bool_iff.
Qed.

Lemma Zltb_lt a b : (a <? b) = true -> a <= b /\ ~ b <= a.
Proof. intros H. apply Z.ltb_lt in H. lia. Qed.

Lemma Zltb_ge a b : (a <? b) = false -> b <= a.
Proof. intros H. apply Z.ltb_ge in H. lia. Qed.

Lemma StronglySorted_lookup {A} (R : A -> A -> Prop) l (i j : nat) x y :
  StronglySorted R l -> (i < j)%nat ->
  l !! i = Some x -> l !! j = Some y -> R x y.
Proof.
  intros Hs. revert i j. induction Hs as [|a l Hs IH Ha]; intros i j Hij Hi Hj.
  - by rewrite lookup_nil in Hi.
  - destruct j as [|j]; [lia|]. destruct i as [|i]; simpl in *.
    + injection Hi as ->. rewrite Forall_forall in Ha. apply Ha.
      by apply list_elem_of_lookup_2 in Hj.
    + apply (IH i j); [lia|done|done].
Qed.

Lemma StronglySorted_weaken {A} (R1 R2 : A -> A -> Prop) l :
  (forall x y, R1 x y -> R2 x y) ->
  StronglySorted R1 l -> StronglySorted R2 l.
Proof.
  intros Himp. induction 1 as [|a l Hs IH Ha]; constructor; [done|].
  eapply Forall_impl; [exact Ha|]. intros y. apply Himp.
Qed.

Section Merge.
Context {R : Type} `{ResultDict R}.

Lemma extend_all_tagged (l : list R) : extend_all l = (l ≫= tag_result).*2.
Proof.
  unfold extend_all.
  enough (Hacc : forall acc,
            fold_left (fun acc r => acc ++ get_transcriptions r) l acc
            = acc ++ (l ≫= tag_result).*2) by apply (Hacc []).
  induction l as [|r l IH]; intros acc; simpl.
  - by rewrite app_nil_r.
  - rewrite IH, fmap_app, <- app_assoc. do 2 f_equal.
    unfold tag_result. rewrite <- list_fmap_compose.
    by rewrite list_fmap_id.
Qed.

Lemma tag_result_sorted (r : R) :
  StronglySorted (fun a b : Z * Transcription => a.1 <= b.1) (tag_result r).
Proof.
  unfold tag_result. induction (get_transcriptions r) as [|s l IH]; simpl.
  - constructor.
  - constructor; [done|]. apply Forall_forall. intros b Hb.
    apply list_elem_of_fmap in Hb as [? [-> _]]. simpl. lia.
Qed.

Lemma tagged_sorted (l : list R) :
  StronglySorted (fun x y => get_chunk_id x <= get_chunk_id y) l ->
  StronglySorted (fun a b : Z * Transcription => a.1 <= b.1)
    (l ≫= tag_result).
Proof.
  induction l as [|r l IH]; intros Hs; simpl; [constructor|].
  apply StronglySorted_inv in Hs as [Hs Hr].
  apply StronglySorted_app_2; [|apply tag_result_sorted|by apply IH].
  intros a b Ha Hb. apply list_elem_of_fmap in Ha as [? [-> _]].
  apply list_elem_of_bind in Hb as [r' [Hb Hr']].
  apply list_elem_of_fmap in Hb as [? [-> _]]. simpl.
  rewrite Forall_forall in Hr. by apply Hr.
Qed.

Lemma master_merge_tagged size (all_results : list R) :
  AggregateResult.transcriptions (master_merge size all_results)
  = (tagged_merge all_results).*2.
Proof.
  unfold master_merge, tagged_merge. simpl.
  by rewrite extend_all_tagged, py_sort_map.
Qed.

Lemma tagged_merge_perm (all_results : list R) :
  tagged_merge all_results ≡ₚ all_results ≫= tag_result.
Proof.
  unfold tagged_merge. rewrite py_sort_perm. by rewrite py_sort_perm.
Qed.

Lemma tagged_merge_sorted (all_results : list R) :
  StronglySorted in_merge_order (tagged_merge all_results).
Proof.
  unfold tagged_merge.
  apply (py_sort_ordered Qltb (start ∘ snd) Qle
           (fun a b : Z * Transcription => a.1 <= b.1)).
  - intros a b c. apply Qle_trans.
  - apply Qltb_lt.
  - apply Qltb_ge.
  - apply tagged_sorted.
    eapply StronglySorted_weaken; [|
      apply (py_sort_ordered Z.ltb get_chunk_id Z.le (fun _ _ => True))].
    + intros x y [Hxy _]. exact Hxy.
    + intros a b c. apply Z.le_trans.
    + apply Zltb_lt.
    + apply Zltb_ge.
    + induction all_results; constructor; [done|].
      by apply Forall_forall.
Qed.
End Merge.

Lemma tagged_length {R} `{ResultDict R} (l : list R) :
  length (l ≫= tag_result)
  = list_sum (map (fun r => length (get_transcriptions r)) l).
Proof.
  induction l as [|r l IH]; [done|].
  rewrite bind_cons, length_app, IH. simpl.
  unfold tag_result. by rewrite length_map.
Qed.

(** C2.  Whatever results are gathered, the merged sequence is sorted by
    [start] (non-decreasing), has as many segments as the results have
    together, and orders segments of equal [start] by the [chunk_id] of
    the result they come from: there is an assignment [origin] of chunk ids
    to the output positions that pairs every output segment with the result
    it was taken from, and along which equal starts never go from a higher
    chunk id to a lower one. *)
Theorem master_merge_sorted_stable {R} `{ResultDict R} (size : Z)
    (all_results : list R) :
  StronglySorted (fun a b => (start a <= start b)%Q)
    (AggregateResult.transcriptions (master_merge size all_results))
  /\ length (AggregateResult.transcriptions (master_merge size all_results))
     = list_sum (map (fun r => length (get_transcriptions r)) all_results)
  /\ exists origin : list Z,
       length origin
       = length (AggregateResult.transcriptions
                   (master_merge size all_results))
       /\ zip origin
            (AggregateResult.transcriptions (master_merge size all_results))
          ≡ₚ all_results ≫= tag_result
       /\ forall (i j : nat) ci cj a b,
            (i < j)%nat ->
            origin !! i = Some ci -> origin !! j = Some cj ->
            AggregateResult.transcriptions (master_merge size all_results)
              !! i = Some a ->
            AggregateResult.transcriptions (master_merge size all_results)
              !! j = Some b ->
            (start a == start b)%Q -> ci <= cj.
Proof.
  rewrite master_merge_tagged.
  pose proof (tagged_merge_sorted all_results) as Hs.
  pose proof (tagged_merge_perm all_results) as Hp.
  set (tm := tagged_merge all_results) in *.
  split; [|split].
  - clear Hp. induction Hs as [|a l Hs IH Ha]; simpl; constructor; [done|].
    rewrite Forall_fmap. eapply Forall_impl; [exact Ha|].
    by intros b [Hab _].
  - by rewrite length_fmap, Hp, tagged_length.
  - exists tm.*1. split; [by rewrite !length_fmap|].
    split; [by rewrite zip_fst_snd|].
    intros i j ci cj a b Hij Hci Hcj Ha Hb Heq.
    rewrite list_lookup_fmap in Hci, Hcj.
    rewrite list_lookup_fmap in Ha, Hb.
    destruct (tm !! i) as [[ci' a']|] eqn:Ei; [|done].
    destruct (tm !! j) as [[cj' b']|] eqn:Ej; [|done].
    simpl in *. simplify_eq.
    destruct (StronglySorted_lookup _ _ _ _ _ _ Hs Hij Ei Ej) as [_ Htie].
    simpl in Htie. apply Htie. rewrite Heq. apply Qle_refl.
Qed.

(** Scenario B with a tie at a chunk boundary, the results arriving out of
    order: the segment of chunk 0 that starts at 60 stays before the one of
    chunk 1. *)
Example merge_boundary_tie :
  map text
    (AggregateResult.transcriptions
       (master_merge 2
          [ {| UnitResult.chunk_id := 1;
               UnitResult.transcriptions :=
                 [mkTranscription 60 65 "c" None;
                  mkTranscription 65 70 "d" None];
               UnitResult.language := "en" |};
            {| UnitResult.chunk_id := 0;
               UnitResult.transcriptions :=
                 [mkTranscription 0 5 "a" None;
                  mkTranscription 60 61 "b" None];
               UnitResult.language := "id" |} ]))
  = ["a"; "b"; "c"; "d"].
Proof. reflexivity. Qed.

Example merge_empty :
  master_merge 3 (@nil UnitResult.t)
  = {| AggregateResult.transcriptions := [];
       AggregateResult.language := "unknown";
       AggregateResult.total_segments := 0;
       AggregateResult.workers_used := 3 |}.
Proof. reflexivity. Qed.

(** ** Job records *)

Lemma redis_get_setex db t key ttl v t' :
  t' < t + ttl -> redis_get (redis_setex db t key ttl v) t' key = Some v.
Proof.
  intros Ht. unfold redis_get, redis_setex. rewrite lookup_insert_eq.
  destruct (Z.ltb_spec t' (t + ttl)); [done|lia].
Qed.

(** What [update_job] does to a job it finds: the write goes through, and
    a later read returns the job with the assignments applied. *)
Lemma update_job_found jm rc_get rc_set utcnow job_id job
    status progress message result error :
  get_job jm rc_get job_id = Some job ->
  accepts jm rc_set ->
  exists jm',
    update_job jm rc_get rc_set utcnow job_id status progress message
      result error = (true, jm')
    /\ _use_redis jm' = _use_redis jm
    /\ forall rc, sees jm rc_set rc ->
         get_job jm' rc job_id
         = Some (apply_update job utcnow status progress message result
                   error).
Proof.
  intros Hget Hacc. unfold update_job. rewrite Hget.
  destruct jm as [client|jobs]; simpl in *.
  - rewrite (Hacc eq_refl). eexists. split; [done|]. split; [done|].
    intros rc Hsees. destruct (Hsees eq_refl) as [Hup Hclock]. simpl.
    rewrite Hup. by apply redis_get_setex.
  - eexists. split; [done|]. split; [done|].
    intros rc _. simpl. apply lookup_insert_eq.
Qed.

Lemma create_job_found jm uuid4 created updated rc video_filename
    target_language job_id jm' :
  create_job jm uuid4 created updated rc video_filename target_language
  = (Ret job_id, jm') ->
  job_id = uuid4
  /\ _use_redis jm' = _use_redis jm
  /\ accepts jm rc
  /\ forall rc', sees jm rc rc' ->
       get_job jm' rc' job_id
       = Some {| Job.job_id := uuid4;
                 Job.status := "pending";
                 Job.video_filename := video_filename;
                 Job.target_language := target_language;
                 Job.created_at := created;
                 Job.updated_at := updated;
                 Job.progress := 0;
                 Job.message := "Job created, waiting to start...";
                 Job.result := None;
                 Job.error := None |}.
Proof.
  unfold create_job. destruct jm as [client|jobs].
  - destruct (up rc) eqn:Hup; [|discriminate]. intros [= <- <-].
    split; [done|]. split; [done|]. split; [by intros _|].
    intros rc' Hsees. destruct (Hsees eq_refl) as [Hup' Hclock]. simpl.
    rewrite Hup'. by apply redis_get_setex.
  - intros [= <- <-]. split; [done|]. split; [done|].
    split; [by intros [=]|].
    intros rc' _. simpl. apply lookup_insert_eq.
Qed.

(** C10.  On a job that exists, when the store takes the write,
    [update_job] returns true and refreshes [updated_at]; [progress=0] is
    written, while an empty [message], an empty [error] and an empty
    [result] dictionary leave their fields as they were. *)
Theorem update_job_falsy_fields jm rc_get rc_set utcnow job_id job
    status progress message result error :
  get_job jm rc_get job_id = Some job ->
  accepts jm rc_set ->
  exists jm' job',
    update_job jm rc_get rc_set utcnow job_id status progress message
      result error = (true, jm')
    /\ (forall rc, sees jm rc_set rc -> get_job jm' rc job_id = Some job')
    /\ Job.updated_at job' = utcnow
    /\ (progress = Some 0 -> Job.progress job' = 0)
    /\ (message = Some "" -> Job.message job' = Job.message job)
    /\ (error = Some "" -> Job.error job' = Job.error job)
    /\ (result = Some [] -> Job.result job' = Job.result job).
Proof.
  intros Hget Hacc.
  destruct (update_job_found jm rc_get rc_set utcnow job_id job status
              progress message result error Hget Hacc)
    as (jm' & Hupd & _ & Hread).
  exists jm', (apply_update job utcnow status progress message result error).
  split; [done|]. split; [done|]. split; [done|].
  repeat split; intros ->; reflexivity.
Qed.

Lemma update_job_falsy_fields_witness :
  get_job redis_store (at_time 400) "j1" = Some finished_job
  /\ accepts redis_store (at_time 401)
  /\ exists jm' job',
       update_job redis_store (at_time 400) (at_time 401)
         "2024-05-01T10:06:40" "j1" None (Some 0) (Some "") (Some [])
         (Some "") = (true, jm')
       /\ (forall rc, sees redis_store (at_time 401) rc ->
             get_job jm' rc "j1" = Some job')
       /\ Job.updated_at job' = "2024-05-01T10:06:40"
       /\ (Some 0 = Some 0 -> Job.progress job' = 0)
       /\ (Some "" = Some "" -> Job.message job' = "Done")
       /\ (Some "" = Some "" -> Job.error job' = None)
       /\ (Some ([] : pydict) = Some [] ->
           Job.result job' = Some [("total_segments", JInt 3)]).
Proof.
  split; [reflexivity|]. split; [intros _; reflexivity|].
  apply (update_job_falsy_fields redis_store (at_time 400) (at_time 401)
           "2024-05-01T10:06:40" "j1" finished_job None (Some 0) (Some "")
           (Some []) (Some ""));
    [reflexivity | intros _; reflexivity].
Defined.

(** C3 (as stated) fails: a completed job is put back to pending, with its
    progress and message rewritten, by an ordinary [update_job]. *)
Lemma update_job_changes_terminal_job :
  get_job memory_store (at_time 0) "j1" = Some finished_job
  /\ terminal (Job.status finished_job) = true
  /\ exists jm' job',
       update_job memory_store (at_time 0) (at_time 0) "2024-05-01T10:06:40"
         "j1" (Some (Member PENDING)) (Some 0) (Some "again") None None
       = (true, jm')
       /\ get_job jm' (at_time 0) "j1" = Some job'
       /\ job' <> finished_job
       /\ Job.status job' = "pending"
       /\ Job.progress job' = 0
       /\ Job.message job' = "again".
Proof.
  split; [reflexivity|]. split; [reflexivity|].
  do 2 eexists. split; [reflexivity|]. split; [by vm_compute|].
  split; [discriminate|]. done.
Qed.

(** C3 (as the code has it).  [update_job] never looks at the status a job
    has: on a job whose status is terminal it assigns the supplied fields as
    on any other job.  A status member that is supplied replaces the
    terminal status, a supplied progress replaces the progress, and
    [updated_at] is refreshed. *)
Theorem update_job_ignores_terminal jm rc_get rc_set utcnow job_id job
    status progress message result error :
  get_job jm rc_get job_id = Some job ->
  terminal (Job.status job) = true ->
  accepts jm rc_set ->
  exists jm' job',
    update_job jm rc_get rc_set utcnow job_id status progress message
      result error = (true, jm')
    /\ (forall rc, sees jm rc_set rc -> get_job jm' rc job_id = Some job')
    /\ job' = apply_update job utcnow status progress message result error
    /\ Job.updated_at job' = utcnow
    /\ (forall s, status = Some (Member s) -> Job.status job' = value s)
    /\ (forall p, progress = Some p -> Job.progress job' = p).
Proof.
  intros Hget _ Hacc.
  destruct (update_job_found jm rc_get rc_set utcnow job_id job status
              progress message result error Hget Hacc)
    as (jm' & Hupd & _ & Hread).
  exists jm', (apply_update job utcnow status progress message result error).
  split; [done|]. split; [done|]. split; [done|]. split; [done|].
  split.
  - intros s ->. by destruct s.
  - by intros p ->.
Qed.

Lemma update_job_ignores_terminal_witness :
  exists jm' job',
    update_job redis_store (at_time 400) (at_time 401) "2024-05-01T10:06:40"
      "j1" (Some (Member PROCESSING)) (Some 40) None None None = (true, jm')
    /\ (forall rc, sees redis_store (at_time 401) rc ->
          get_job jm' rc "j1" = Some job')
    /\ job' = apply_update finished_job "2024-05-01T10:06:40"
                (Some (Member PROCESSING)) (Some 40) None None None
    /\ Job.updated_at job' = "2024-05-01T10:06:40"
    /\ (forall s, Some (Member PROCESSING) = Some (Member s) ->
          Job.status job' = value s)
    /\ (forall p, Some 40 = Some p -> Job.progress job' = p).
Proof.
  apply (update_job_ignores_terminal redis_store (at_time 400) (at_time 401)
           "2024-05-01T10:06:40" "j1" finished_job
           (Some (Member PROCESSING)) (Some 40) None None None);
    [reflexivity | reflexivity | intros _; reflexivity].
Defined.

(** C8 (as stated) fails: values are supplied for all five fields, yet the
    empty message, the empty result and the empty error are not written, so
    the read returns the message of [create_job] and no result or error. *)
Lemma round_trip_keeps_stale_fields :
  exists jm1 jm2 job,
    create_job (InMemory ∅) "j2" "2024-05-01T10:00:00" "2024-05-01T10:00:00"
      (at_time 0) "talk.mp4" None = (Ret "j2", jm1)
    /\ update_job jm1 (at_time 1) (at_time 1) "2024-05-01T10:05:00" "j2"
         (Some (Member COMPLETED)) (Some 100) (Some "") (Some [])
         (Some "") = (true, jm2)
    /\ get_job jm2 (at_time 2) "j2" = Some job
    /\ Job.message job = "Job created, waiting to start..."
    /\ Job.message job <> ""
    /\ Job.result job <> Some []
    /\ Job.error job <> Some "".
Proof.
  do 3 eexists. split; [reflexivity|]. split; [reflexivity|].
  split; [by vm_compute|]. done.
Qed.

(** C8 (as the code has it).  A job created by [create_job] and then
    updated with a status, a progress, a non-empty message, a non-empty
    result and a non-empty error is read back with exactly these values:
    nothing of the created record remains in the five fields, and the
    other fields are those of the creation, [updated_at] being the time of
    the update.  The store has to take the calls: always for the in-memory
    store; for Redis every command reaches the server and each read comes
    within the retention time of the write before it. *)
Theorem create_update_get_round_trip jm uuid4 created updated rc_create
    video_filename target_language job_id jm1
    rc_get rc_set utcnow status progress message result error rc :
  create_job jm uuid4 created updated rc_create video_filename
    target_language = (Ret job_id, jm1) ->
  status_truthy status = true ->
  str_truthy message = true ->
  dict_truthy result = true ->
  str_truthy error = true ->
  sees jm rc_create rc_get ->
  accepts jm rc_set ->
  sees jm rc_set rc ->
  exists jm2,
    update_job jm1 rc_get rc_set utcnow job_id (Some status) (Some progress)
      (Some message) (Some result) (Some error) = (true, jm2)
    /\ get_job jm2 rc job_id
       = Some {| Job.job_id := job_id;
                 Job.status := status_text status;
                 Job.video_filename := video_filename;
                 Job.target_language := target_language;
                 Job.created_at := created;
                 Job.updated_at := utcnow;
                 Job.progress := progress;
                 Job.message := message;
                 Job.result := Some result;
                 Job.error := Some error |}.
Proof.
  intros Hcreate Hst Hm Hr He Hsee_get Hacc Hsee.
  apply create_job_found in Hcreate as (-> & Hmode & _ & Hread).
  specialize (Hread rc_get Hsee_get).
  assert (Hacc1 : accepts jm1 rc_set) by (unfold accepts; by rewrite Hmode).
  destruct (update_job_found jm1 rc_get rc_set utcnow uuid4 _ (Some status)
              (Some progress) (Some message) (Some result) (Some error)
              Hread Hacc1) as (jm2 & Hupd & _ & Hread2).
  exists jm2. split; [done|].
  rewrite Hread2 by (unfold sees; by rewrite Hmode).
  unfold apply_update. simpl. by rewrite Hst, Hm, Hr, He.
Qed.

Lemma create_update_get_round_trip_witness :
  exists jm2,
    update_job
      (RedisBacked
         (redis_setex ∅ 100 "job:j2" job_ttl
            {| Job.job_id := "j2";
               Job.status := "pending";
               Job.video_filename := "talk.mp4";
               Job.target_language := Some "id";
               Job.created_at := "2024-05-01T10:00:00";
               Job.updated_at := "2024-05-01T10:00:01";
               Job.progress := 0;
               Job.message := "Job created, waiting to start...";
               Job.result := None;
               Job.error := None |}))
      (at_time 160) (at_time 161) "2024-05-01T10:01:01" "j2"
      (Some (Member FAILED)) (Some 35) (Some "Transcription failed")
      (Some [("total_segments", JInt 0)]) (Some "chunk 1: ffmpeg failed")
    = (true, jm2)
    /\ get_job jm2 (at_time 3000) "j2"
       = Some {| Job.job_id := "j2";
                 Job.status := "failed";
                 Job.video_filename := "talk.mp4";
                 Job.target_language := Some "id";
                 Job.created_at := "2024-05-01T10:00:00";
                 Job.updated_at := "2024-05-01T10:01:01";
                 Job.progress := 35;
                 Job.message := "Transcription failed";
                 Job.result := Some [("total_segments", JInt 0)];
                 Job.error := Some "chunk 1: ffmpeg failed" |}.
Proof.
  apply (create_update_get_round_trip (RedisBacked ∅) "j2"
           "2024-05-01T10:00:00" "2024-05-01T10:00:01" (at_time 100)
           "talk.mp4" (Some "id") "j2" _ (at_time 160) (at_time 161)
           "2024-05-01T10:01:01" (Member FAILED) 35 "Transcription failed"
           [("total_segments", JInt 0)] "chunk 1: ffmpeg failed"
           (at_time 3000));
    try reflexivity;
    intros _; split; [reflexivity | unfold job_ttl; simpl; lia
                     | reflexivity | unfold job_ttl; simpl; lia].
Defined.

(** ** Unit Executor *)

Lemma process_chunk_transcribe_raises rank cap chunk target_language fs e :
  ffmpeg cap (video_path chunk) (start_time chunk) (end_time chunk)
    (audio_chunk_path (chunk_id chunk) rank) = FfmpegDone ->
  transcribe cap (audio_chunk_path (chunk_id chunk) rank) = Raise e ->
  process_chunk rank cap chunk target_language fs
  = (Raise e, {[audio_chunk_path (chunk_id chunk) rank]} ∪ fs).
Proof. intros Hf Ht. unfold process_chunk. by rewrite Hf, Ht. Qed.

Lemma process_chunk_ffmpeg_fails rank cap chunk target_language fs wrote :
  ffmpeg cap (video_path chunk) (start_time chunk) (end_time chunk)
    (audio_chunk_path (chunk_id chunk) rank) = FfmpegFailed wrote ->
  (process_chunk rank cap chunk target_language fs).1
  = Raise CalledProcessError.
Proof. intros Hf. unfold process_chunk. by rewrite Hf. Qed.

(** The path that succeeds removes the audio file and rebases the times. *)
Lemma process_chunk_succeeds rank cap chunk target_language fs segments
    info :
  ffmpeg cap (video_path chunk) (start_time chunk) (end_time chunk)
    (audio_chunk_path (chunk_id chunk) rank) = FfmpegDone ->
  transcribe cap (audio_chunk_path (chunk_id chunk) rank)
  = Ret (segments, info) ->
  exists fs',
    process_chunk rank cap chunk target_language fs
    = (Ret {| UnitResult.chunk_id := chunk_id chunk;
              UnitResult.transcriptions :=
                map (transcription_of cap target_language (start_time chunk))
                  segments;
              UnitResult.language := default "unknown" (info_language info)
           |}, fs')
    /\ audio_chunk_path (chunk_id chunk) rank ∉ fs'.
Proof.
  intros Hf Ht. unfold process_chunk. rewrite Hf, Ht.
  rewrite fold_left_append_map. simpl.
  rewrite decide_True by set_solver.
  eexists. split.
  - by destruct (info_language info).
  - intros Hin. apply elem_of_difference in Hin as [_ Hn].
    apply Hn. by apply elem_of_singleton.
Qed.

(** A translation that fails is absorbed: the text is carried forward. *)
Lemma transcription_of_translate_raises cap target start_time segment e :
  str_truthy target = true ->
  translate cap target (strip (WhisperSegment.text segment)) = Raise e ->
  translated_text (transcription_of cap (Some target) start_time segment)
  = Some (strip (WhisperSegment.text segment)).
Proof. intros Ht He. unfold transcription_of. simpl. by rewrite Ht, He. Qed.

Example process_chunk_translator_down :
  (process_chunk 1 broken_translator second_chunk (Some "en") ∅).1
  = Ret {| UnitResult.chunk_id := 1;
           UnitResult.transcriptions :=
             [mkTranscription (0 + 60) (4 + 60) "halo dunia"
                (Some "halo dunia");
              mkTranscription (4 + 60) (9 + 60) "apa kabar"
                (Some "apa kabar")];
           UnitResult.language := "id" |}.
Proof. reflexivity. Qed.

(** C5 (as stated) fails: with a Whisper model that raises,
    [process_chunk] raises as well and returns no result. *)
Lemma process_chunk_propagates_failure :
  raises (transcribe broken_whisper (audio_chunk_path 1 1))
  /\ (process_chunk 1 broken_whisper second_chunk (Some "en") ∅).1
     = Raise (Exception "model failed")
  /\ ~ returns (process_chunk 1 broken_whisper second_chunk (Some "en") ∅).1.
Proof.
  split; [by eexists|]. split; [reflexivity|].
  intros [r Hr]. discriminate Hr.
Qed.

(** C5 (as the code has it).  When the transcription raises, so does
    [process_chunk], with the same exception: no result is returned, with
    or without a status. *)
Theorem process_chunk_raises_on_failure rank cap chunk target_language fs e :
  ffmpeg cap (video_path chunk) (start_time chunk) (end_time chunk)
    (audio_chunk_path (chunk_id chunk) rank) = FfmpegDone ->
  transcribe cap (audio_chunk_path (chunk_id chunk) rank) = Raise e ->
  (process_chunk rank cap chunk target_language fs).1 = Raise e
  /\ ~ returns (process_chunk rank cap chunk target_language fs).1.
Proof.
  intros Hf Ht.
  rewrite (process_chunk_transcribe_raises _ _ _ _ _ _ Hf Ht). simpl.
  split; [done|]. intros [r Hr]. discriminate Hr.
Qed.

Lemma process_chunk_raises_on_failure_witness :
  (process_chunk 1 broken_whisper second_chunk None ∅).1
  = Raise (Exception "model failed")
  /\ ~ returns (process_chunk 1 broken_whisper second_chunk None ∅).1.
Proof.
  apply (process_chunk_raises_on_failure 1 broken_whisper second_chunk None
           ∅ (Exception "model failed")); reflexivity.
Defined.

(** C6: the audio file outlives a failed transcription.  With a Whisper
    model that raises, [process_chunk] leaves the file it extracted in the
    workspace; the clean-up is on the path that succeeds only. *)
Theorem process_chunk_leaks_audio_file :
  (process_chunk 1 broken_whisper second_chunk (Some "en") ∅).1
  = Raise (Exception "model failed")
  /\ "/mpi/workspace/chunk_1_rank_1.wav"
     ∈ (process_chunk 1 broken_whisper second_chunk (Some "en") ∅).2
  /\ exists fs',
       process_chunk 1 broken_translator second_chunk (Some "en") ∅
       = (Ret {| UnitResult.chunk_id := 1;
                 UnitResult.transcriptions :=
                   [mkTranscription (0 + 60) (4 + 60) "halo dunia"
                      (Some "halo dunia");
                    mkTranscription (4 + 60) (9 + 60) "apa kabar"
                      (Some "apa kabar")];
                 UnitResult.language := "id" |}, fs')
       /\ "/mpi/workspace/chunk_1_rank_1.wav" ∉ fs'.
Proof.
  rewrite (process_chunk_transcribe_raises 1 broken_whisper second_chunk
             (Some "en") ∅ (Exception "model failed") eq_refl eq_refl).
  split; [done|]. split.
  - change (audio_chunk_path (chunk_id second_chunk) 1)
      with "/mpi/workspace/chunk_1_rank_1.wav". simpl. set_solver.
  - destruct (process_chunk_succeeds 1 broken_translator second_chunk
                (Some "en") ∅ _ _ eq_refl eq_refl) as (fs' & Hrun & Hgone).
    exists fs'. split; [exact Hrun|exact Hgone].
Qed.

(** ** Failed chunks and the merge *)





(** A chunk that cannot be processed does not come back as data: the rank
    raises, and the run as a whole has no result. *)
Lemma run_ranks_raises caps target_language chunks rank fs (i : nat) chunk :
  chunks !! i = Some chunk ->
  (forall fs',
     raises (process_chunk (rank + Z.of_nat i) (caps (rank + Z.of_nat i))
               chunk target_language fs').1) ->
  raises (run_ranks caps target_language rank chunks fs).1.
Proof.
  revert rank fs i. induction chunks as [|c chunks IH]; intros rank fs i Hi Hr.
  - by rewrite lookup_nil in Hi.
  - simpl.
    destruct (process_chunk rank (caps rank) c target_language fs)
      as [result fs1] eqn:E1.
    destruct (run_ranks caps target_language (rank + 1) chunks fs1)
      as [rest fs2] eqn:E2.
    simpl. destruct i as [|i]; simpl in Hi.
    + injection Hi as ->. specialize (Hr fs).
      rewrite Z.add_0_r, E1 in Hr. destruct Hr as [e He].
      simpl in He. subst result. by eexists.
    + assert (Hrest : raises rest).
      { change rest with (rest, fs2).1. rewrite <- E2.
        apply (IH (rank + 1) fs1 i); [done|].
        intros fs'. replace (rank + 1 + Z.of_nat i)
          with (rank + Z.of_nat (S i)) by lia. apply Hr. }
      destruct Hrest as [e ->]. destruct result; by eexists.
Qed.

(** ** The backend wrapper *)

Lemma Qltb_true a b : Qltb a b = true <-> (a < b)%Q.
Proof.
  unfold Qltb. rewrite negb_true_iff. split.
  - intros H. apply Qnot_le_lt. intros Hle.
    apply Qle_bool_iff in Hle. congruence.
  - intros H. destruct (Qle_bool b a) eqn:E; [|done].
    apply Qle_bool_iff in E. by apply Qlt_not_le in H.
Qed.

Lemma process_video_parallel_disabled self env fs video_path target_language
    num_workers :
  mpi_enabled self = false ->
  process_video_parallel self env fs video_path target_language num_workers
  = (None, fs).
Proof. intros Hoff. unfold process_video_parallel. by rewrite Hoff. Qed.

Example process_video_parallel_runs :
  mpirun_cmd with_mpi "/mpi/workspace/talk.mp4" (Some "id") 3
  = ["mpirun"; "-np"; "3"; "-hostfile"; "/etc/mpi/hostfile";
     "--allow-run-as-root"; "python3"; "/mpi/mpi_service.py";
     "/mpi/workspace/talk.mp4"; "id"]
  /\ (process_video_parallel with_mpi good_launch ∅ "/uploads/talk.mp4"
        (Some "id") 3).1
     = Some (JDict [("total_segments", JInt 3); ("workers_used", JInt 3)]).
Proof. split; by vm_compute. Qed.

(** C9 (as stated) fails: without [mpirun] a video of 200 seconds is not
    sent to the distributed path, and [process_video_parallel] produces
    nothing, also when asked for a single worker. *)
Lemma process_video_parallel_no_fallback :
  mpi_enabled no_mpi = false
  /\ should_use_mpi no_mpi (Ret 200%Q) = false
  /\ process_video_parallel no_mpi good_launch ∅ "/uploads/talk.mp4"
       (Some "id") 1 = (None, ∅).
Proof. split; [reflexivity|]. split; reflexivity. Qed.

(** C9 (as the code has it).  [should_use_mpi] answers true exactly when
    [mpirun] is available and the duration could be read and exceeds 60
    seconds.  Without [mpirun], [process_video_parallel] runs nothing and
    returns [None], leaving the files as they are, for every number of
    workers. *)
Theorem should_use_mpi_exactly self probe env fs video_path target_language
    num_workers :
  (should_use_mpi self probe = true
   <-> mpi_enabled self = true
       /\ exists duration, probe = Ret duration /\ (60 < duration)%Q)
  /\ (mpi_enabled self = false ->
      process_video_parallel self env fs video_path target_language
        num_workers = (None, fs)).
Proof.
  split; [|apply process_video_parallel_disabled].
  unfold should_use_mpi. destruct (mpi_enabled self); simpl.
  - destruct probe as [d|e].
    + rewrite Qltb_true. split.
      * intros Hd. split; [done|]. by exists d.
      * by intros [_ (d' & [= <-] & Hd)].
    + split; [done|]. by intros [_ (d & [=] & _)].
  - split; [done|]. by intros [[=] _].
Qed.

Lemma should_use_mpi_exactly_witness :
  should_use_mpi with_mpi (Ret 200%Q) = true
  /\ process_video_parallel no_mpi good_launch ∅ "/uploads/talk.mp4" None 3
     = (None, ∅).
Proof.
  split.
  - apply (should_use_mpi_exactly with_mpi (Ret 200%Q) good_launch ∅
             "/uploads/talk.mp4" None 3).
    split; [reflexivity|]. exists 200%Q. split; reflexivity.
  - apply (should_use_mpi_exactly no_mpi (Ret 200%Q) good_launch ∅
             "/uploads/talk.mp4" None 3). reflexivity.
Defined.

Example parallel_process_video_worker_fails :
  (parallel_process_video 3
     (fun rank => if rank =? 1 then broken_whisper else broken_translator)
     "/mpi/workspace/talk.mp4" 180 None ∅).1
  = Raise (Exception "model failed").
Proof. by vm_compute. Qed.

(** * Further properties of the code *)

(** ** Chunk Planner: the width of the chunks *)



(** ** Unit Executor: files, times and translations *)





(** X4.  The translator cannot make [process_chunk] fail, and it decides
    nothing but [translated_text]: when ffmpeg and the transcription
    succeed, every transcription of the result has no translation if the
    target language is missing or empty, and otherwise has one, which is
    the translator's answer for the stripped text or, when the translator
    raises, the stripped text itself. *)
Theorem process_chunk_translation rank cap chunk target_language fs
    segments info :
  ffmpeg cap (video_path chunk) (start_time chunk) (end_time chunk)
    (audio_chunk_path (chunk_id chunk) rank) = FfmpegDone ->
  transcribe cap (audio_chunk_path (chunk_id chunk) rank)
  = Ret (segments, info) ->
  exists r fs',
    process_chunk rank cap chunk target_language fs = (Ret r, fs')
    /\ forall t, t ∈ UnitResult.transcriptions r ->
         (opt_str_truthy target_language = false ->
          translated_text t = None)
         /\ (forall target,
               target_language = Some target -> str_truthy target = true ->
               translated_text t
               = Some match translate cap target (text t) with
                      | Ret translated => translated
                      | Raise _ => text t
                      end).
Proof.
  intros Hf Ht. unfold process_chunk. rewrite Hf, Ht.
  rewrite fold_left_append_map. do 2 eexists. split; [reflexivity|].
  simpl. intros t Hin. apply list_elem_of_fmap in Hin as [s [-> _]].
  unfold transcription_of. simpl. split.
  - intros Hfalsy. destruct target_language as [target|]; [|done].
    simpl in Hfalsy. by rewrite Hfalsy.
  - intros target -> Htruthy. rewrite Htruthy.
    by destruct (translate cap target (strip (WhisperSegment.text s))).
Qed.

Lemma process_chunk_translation_witness :
  exists r fs',
    process_chunk 1 broken_translator second_chunk (Some "en") ∅
    = (Ret r, fs')
    /\ forall t, t ∈ UnitResult.transcriptions r ->
         (opt_str_truthy (Some "en") = false -> translated_text t = None)
         /\ (forall target,
               Some "en" = Some target -> str_truthy target = true ->
               translated_text t
               = Some match translate broken_translator target (text t) with
                      | Ret translated => translated
                      | Raise _ => text t
                      end).
Proof.
  apply (process_chunk_translation 1 broken_translator second_chunk
           (Some "en") ∅
           [WhisperSegment.mk 0 4 " halo dunia ";
            WhisperSegment.mk 4 9 "apa kabar"]
           {| info_language := Some "id" |}); reflexivity.
Defined.

(** ** Aggregator: arrival order, language, concatenation *)

Lemma py_sort_sorted_id {A K} (ltb : K -> K -> bool) (key : A -> K)
    (le : K -> K -> Prop) (l : list A) :
  (forall a b, ltb a b = true -> ~ le b a) ->
  StronglySorted (fun x y => le (key x) (key y)) l ->
  py_sort ltb key l = l.
Proof.
  intros Hlt. induction 1 as [|x l Hs IH Hx]; simpl; [done|].
  rewrite IH. destruct l as [|y l]; simpl; [done|].
  apply Forall_cons in Hx as [Hxy _].
  destruct (ltb (key y) (key x)) eqn:E; [|done].
  by apply Hlt in E.
Qed.

Lemma sorted_by_chunk_id {R} `{ResultDict R} (l : list R) :
  StronglySorted (fun x y => get_chunk_id x <= get_chunk_id y)
    (py_sort Z.ltb get_chunk_id l).
Proof.
  eapply StronglySorted_weaken; [|
    apply (py_sort_ordered Z.ltb get_chunk_id Z.le (fun _ _ => True))].
  - intros x y [Hxy _]. exact Hxy.
  - intros a b c. apply Z.le_trans.
  - apply Zltb_lt.
  - apply Zltb_ge.
  - induction l; constructor; [done|]. by apply Forall_forall.
Qed.

(** X5.  When the gathered results have pairwise different chunk ids, the
    order in which they arrive does not matter: every permutation of the
    results is merged to the same aggregate. *)
Theorem master_merge_arrival_order {R} `{ResultDict R} (size : Z)
    (l l' : list R) :
  NoDup (map get_chunk_id l) -> l ≡ₚ l' ->
  master_merge size l = master_merge size l'.
Proof.
  intros Hnd Hp.
  assert (Hs : py_sort Z.ltb get_chunk_id l = py_sort Z.ltb get_chunk_id l').
  { apply (StronglySorted_unique_strong
             (fun x y => get_chunk_id x <= get_chunk_id y)).
    - intros x1 x2 H1 H2 H12 H21.
      rewrite py_sort_perm in H1. rewrite py_sort_perm, <- Hp in H2.
      assert (Heq : get_chunk_id x1 = get_chunk_id x2) by lia.
      clear H12 H21 Hp. induction l as [|a l IH]; [by apply elem_of_nil in H1|].
      simpl in Hnd. apply NoDup_cons in Hnd as [Ha Hnd].
      apply elem_of_cons in H1 as [->|H1], H2 as [->|H2]; [done| | |by apply IH].
      + destruct Ha. rewrite Heq. by apply list_elem_of_fmap_2.
      + destruct Ha. rewrite <- Heq. by apply list_elem_of_fmap_2.
    - apply sorted_by_chunk_id.
    - apply sorted_by_chunk_id.
    - by rewrite !py_sort_perm. }
  unfold master_merge. by rewrite Hs.
Qed.

Lemma master_merge_arrival_order_witness :
  master_merge 3 gathered_with_failure
  = master_merge 3 (rev gathered_with_failure).
Proof.
  apply (master_merge_arrival_order 3 gathered_with_failure
           (rev gathered_with_failure)).
  - simpl. repeat constructor; rewrite ?elem_of_cons, ?elem_of_nil; lia.
  - apply Permutation_rev.
Defined.

(** X6.  The language of the aggregate is the language of a gathered
    result with the least chunk id, and it is "unknown" when nothing was
    gathered. *)
Theorem master_merge_language {R} `{ResultDict R} (size : Z)
    (all_results : list R) :
  (all_results = [] ->
   AggregateResult.language (master_merge size all_results) = "unknown")
  /\ (all_results <> [] ->
      exists first,
        first ∈ all_results
        /\ AggregateResult.language (master_merge size all_results)
           = get_language first
        /\ forall r, r ∈ all_results -> get_chunk_id first <= get_chunk_id r).
Proof.
  split; [by intros ->|]. intros Hne. unfold master_merge. simpl.
  pose proof (sorted_by_chunk_id all_results) as Hs.
  pose proof (py_sort_perm Z.ltb get_chunk_id all_results) as Hp.
  destruct (py_sort Z.ltb get_chunk_id all_results) as [|first s].
  - symmetry in Hp. apply Permutation_nil_r in Hp. done.
  - exists first. split; [rewrite <- Hp; apply elem_of_cons; by left|].
    split; [done|]. intros r Hr. rewrite <- Hp in Hr.
    apply StronglySorted_inv in Hs as [_ Hfirst].
    apply elem_of_cons in Hr as [->|Hr]; [lia|].
    rewrite Forall_forall in Hfirst. by apply Hfirst.
Qed.

Lemma master_merge_language_witness :
  exists first,
    first ∈ gathered_with_failure
    /\ AggregateResult.language (master_merge 3 gathered_with_failure)
       = get_language first
    /\ forall r, r ∈ gathered_with_failure ->
         get_chunk_id first <= get_chunk_id r.
Proof.
  apply (master_merge_language 3 gathered_with_failure). discriminate.
Defined.

(** X7.  When the results arrive in chunk order and their segments, put
    one result after the other, are already in order of start, the merge
    is this concatenation: no segment moves. *)
Theorem master_merge_concatenates {R} `{ResultDict R} (size : Z)
    (all_results : list R) :
  StronglySorted (fun x y => get_chunk_id x <= get_chunk_id y) all_results ->
  StronglySorted (fun a b => (start a <= start b)%Q)
    (all_results ≫= get_transcriptions) ->
  AggregateResult.transcriptions (master_merge size all_results)
  = all_results ≫= get_transcriptions.
Proof.
  intros Hc Hs. unfold master_merge. simpl.
  rewrite (py_sort_sorted_id Z.ltb get_chunk_id Z.le all_results);
    [|intros a b Hab; apply Z.ltb_lt in Hab; lia|done].
  assert (He : extend_all all_results = all_results ≫= get_transcriptions).
  { rewrite extend_all_tagged. clear Hc Hs.
    induction all_results as [|r l IH]; [done|].
    rewrite !bind_cons, fmap_app, IH. f_equal.
    unfold tag_result. rewrite <- list_fmap_compose. by rewrite list_fmap_id. }
  rewrite He. apply (py_sort_sorted_id Qltb start Qle); [|done].
  intros a b Hab. by apply Qltb_lt in Hab as [_ Hn].
Qed.

Lemma master_merge_concatenates_witness :
  AggregateResult.transcriptions (master_merge 3 gathered_with_failure)
  = gathered_with_failure ≫= get_transcriptions.
Proof.
  apply (master_merge_concatenates 3 gathered_with_failure).
  - unfold gathered_with_failure.
    repeat (constructor; [|repeat constructor; simpl; lia]). constructor.
  - simpl. repeat constructor. by vm_compute.
Defined.

(** ** The whole run when every worker succeeds *)

Lemma process_chunk_returns rank cap chunk target_language fs segments info :
  ffmpeg cap (video_path chunk) (start_time chunk) (end_time chunk)
    (audio_chunk_path (chunk_id chunk) rank) = FfmpegDone ->
  transcribe cap (audio_chunk_path (chunk_id chunk) rank)
  = Ret (segments, info) ->
  process_chunk rank cap chunk target_language fs
  = (Ret {| UnitResult.chunk_id := chunk_id chunk;
            UnitResult.transcriptions :=
              map (transcription_of cap target_language (start_time chunk))
                segments;
            UnitResult.language :=
              match info_language info with
              | Some l => l
              | None => "unknown"
              end |},
     fs ∖ {[audio_chunk_path (chunk_id chunk) rank]}).
Proof.
  intros Hf Ht. unfold process_chunk. rewrite Hf, Ht.
  rewrite fold_left_append_map. simpl.
  rewrite decide_True by (apply elem_of_union_l; by apply elem_of_singleton).
  f_equal. apply set_eq. intros p.
  rewrite !elem_of_difference, elem_of_union. tauto.
Qed.

Lemma run_ranks_all_return caps target_language :
  (forall rank v s e out, ffmpeg (caps rank) v s e out = FfmpegDone) ->
  (forall rank p, returns (transcribe (caps rank) p)) ->
  forall chunks rank fs,
  exists results fs',
    run_ranks caps target_language rank chunks fs = (Ret results, fs')
    /\ length results = length chunks
    /\ (forall (i : nat) r, results !! i = Some r ->
          exists c, chunks !! i = Some c
            /\ UnitResult.chunk_id r = chunk_id c)
    /\ (forall p, p ∈ fs' <->
          p ∈ fs /\ forall (i : nat) c, chunks !! i = Some c ->
                      p <> audio_chunk_path (chunk_id c) (rank + Z.of_nat i)).
Proof.
  intros Hf Ht. induction chunks as [|c chunks IH]; intros rank fs.
  - exists [], fs. split; [done|]. split; [done|]. split.
    + intros i r Hr. by rewrite lookup_nil in Hr.
    + intros p. split; [|tauto]. intros Hp. split; [done|].
      intros i c Hc. by rewrite lookup_nil in Hc.
  - simpl. destruct (Ht rank (audio_chunk_path (chunk_id c) rank))
      as [[segments info] Hseg].
    rewrite (process_chunk_returns _ _ _ _ _ segments info (Hf _ _ _ _ _) Hseg).
    destruct (IH (rank + 1)
                (fs ∖ {[audio_chunk_path (chunk_id c) rank]}))
      as (results & fs' & Hrun & Hlen & Hids & Hfs).
    rewrite Hrun. do 2 eexists. split; [reflexivity|].
    split; [simpl; by rewrite Hlen|]. split.
    + intros [|i] r Hr; simpl in Hr.
      * injection Hr as <-. by exists c.
      * by apply Hids.
    + intros p. rewrite Hfs, elem_of_difference, elem_of_singleton. split.
      * intros [[Hp Hne] Hrest]. split; [done|]. intros [|i] c' Hc'.
        -- injection Hc' as <-. by rewrite Z.add_0_r.
        -- replace (rank + Z.of_nat (S i)) with (rank + 1 + Z.of_nat i) by lia.
           by apply Hrest.
      * intros [Hp Hall]. split; [split; [done|]|].
        -- specialize (Hall 0%nat c eq_refl). by rewrite Z.add_0_r in Hall.
        -- intros i c' Hc'.
           replace (rank + 1 + Z.of_nat i) with (rank + Z.of_nat (S i)) by lia.
           by apply Hall.
Qed.

(** X8.  When ffmpeg and the Whisper model work on every worker, the run
    over [size] > 0 workers returns the merge of [size] results, the
    result of rank i carrying chunk id i, and it leaves the workspace as it
    found it except that no audio file of any rank remains.  This holds
    whatever the translators do. *)
Theorem parallel_process_video_all_workers_succeed (size : Z)
    (caps : Z -> Capabilities) (path : string) (d : Q)
    (target_language : option string) (fs : gset string) :
  0 < size ->
  (forall rank v s e out, ffmpeg (caps rank) v s e out = FfmpegDone) ->
  (forall rank p, returns (transcribe (caps rank) p)) ->
  exists results fs',
    parallel_process_video size caps path d target_language fs
    = (Ret (master_merge size results), fs')
    /\ Z.of_nat (length results) = size
    /\ (forall (i : nat) r, results !! i = Some r ->
          UnitResult.chunk_id r = Z.of_nat i)
    /\ (forall p, p ∈ fs' <->
          p ∈ fs /\ forall i, 0 <= i < size -> p <> audio_chunk_path i i).
Proof.
  intros Hsize Hf Ht. unfold parallel_process_video.
  rewrite split_chunks_eq by lia.
  set (chunks := map (make_chunk path d (d / inject_Z size)%Q) (range size)).
  destruct (run_ranks_all_return caps target_language Hf Ht chunks 0 fs)
    as (results & fs' & Hrun & Hlen & Hids & Hfs).
  rewrite Hrun. exists results, fs'. split; [done|].
  split; [rewrite Hlen; unfold chunks; rewrite length_map, range_length; lia|].
  split.
  - intros i r Hr. destruct (Hids i r Hr) as (c & Hc & ->).
    by apply chunks_lookup in Hc as [_ ->].
  - intros p. rewrite Hfs. split; intros [Hp Hall]; (split; [done|]).
    + intros i Hi. specialize (Hall (Z.to_nat i)
        (make_chunk path d (d / inject_Z size)%Q (Z.of_nat (Z.to_nat i)))).
      rewrite Z2Nat.id in Hall by lia. apply Hall.
      unfold chunks. rewrite list_lookup_fmap, range_lookup by lia.
      simpl. by rewrite Z2Nat.id by lia.
    + intros i c Hc. apply chunks_lookup in Hc as [Hi ->]. simpl.
      apply Hall. lia.
Qed.

Lemma parallel_process_video_all_workers_succeed_witness :
  exists results fs',
    parallel_process_video 3 (fun _ => broken_translator)
      "/mpi/workspace/talk.mp4" 180 (Some "en")
      {["/mpi/workspace/talk.mp4"]}
    = (Ret (master_merge 3 results), fs')
    /\ Z.of_nat (length results) = 3
    /\ (forall (i : nat) r, results !! i = Some r ->
          UnitResult.chunk_id r = Z.of_nat i)
    /\ (forall p, p ∈ fs' <->
          p ∈ ({["/mpi/workspace/talk.mp4"]} : gset string)
          /\ forall i, 0 <= i < 3 -> p <> audio_chunk_path i i).
Proof.
  apply (parallel_process_video_all_workers_succeed 3
           (fun _ => broken_translator) "/mpi/workspace/talk.mp4" 180
           (Some "en") {["/mpi/workspace/talk.mp4"]}).
  - lia.
  - reflexivity.
  - intros rank p. eexists. reflexivity.
Defined.

(** ** Job records: isolation, deletion, retention *)

Lemma _make_key_inj a b : _make_key a = _make_key b -> a = b.
Proof. unfold _make_key. apply (String.app_inj job_prefix). Qed.

Lemma redis_get_setex_ne db t key ttl v t' key' :
  key <> key' ->
  redis_get (redis_setex db t key ttl v) t' key' = redis_get db t' key'.
Proof.
  intros Hne. unfold redis_get, redis_setex. by rewrite lookup_insert_ne.
Qed.

(** X9.  [update_job] on one job leaves every other job as it is: whatever
    the arguments and whether or not the update succeeds, a job stored
    under another id is read back unchanged. *)
Theorem update_job_other_jobs jm rc_get rc_set utcnow job_id status
    progress message result error rc (other : string) :
  other <> job_id ->
  get_job
    (update_job jm rc_get rc_set utcnow job_id status progress message
       result error).2 rc other
  = get_job jm rc other.
Proof.
  intros Hne. unfold update_job.
  destruct (get_job jm rc_get job_id) as [job|]; [|done].
  destruct jm as [client|jobs]; simpl.
  - destruct (up rc_set); [|done]. simpl. destruct (up rc); [|done].
    apply redis_get_setex_ne. intros Hk. apply _make_key_inj in Hk. by subst.
  - by rewrite lookup_insert_ne.
Qed.

Lemma update_job_other_jobs_witness :
  get_job
    (update_job
       (InMemory (<["j9" := finished_job]> {[ "j1" := finished_job ]}))
       (at_time 0) (at_time 0) "2024-05-01T10:06:40" "j1"
       (Some (Member FAILED)) (Some 0) None None (Some "boom")).2
    (at_time 1) "j9"
  = get_job (InMemory (<["j9" := finished_job]> {[ "j1" := finished_job ]}))
      (at_time 1) "j9".
Proof.
  apply (update_job_other_jobs
           (InMemory (<["j9" := finished_job]> {[ "j1" := finished_job ]}))
           (at_time 0) (at_time 0) "2024-05-01T10:06:40" "j1"
           (Some (Member FAILED)) (Some 0) None None (Some "boom")
           (at_time 1) "j9").
  discriminate.
Defined.

(** X10.  No update changes what identifies a job: after [update_job],
    whatever its arguments, the job is read back with the [job_id],
    [video_filename], [target_language] and [created_at] it had. *)
Theorem update_job_keeps_identity jm rc_get rc_set utcnow job_id status
    progress message result error job rc job' :
  get_job jm rc_get job_id = Some job ->
  get_job
    (update_job jm rc_get rc_set utcnow job_id status progress message
       result error).2 rc job_id = Some job' ->
  Job.job_id job' = Job.job_id job
  /\ Job.video_filename job' = Job.video_filename job
  /\ Job.target_language job' = Job.target_language job
  /\ Job.created_at job' = Job.created_at job.
Proof.
  intros Hget. unfold update_job. rewrite Hget.
  destruct jm as [client|jobs]; simpl in *.
  - destruct (up rc_get); [|done]. destruct (up rc_set); simpl.
    + destruct (up rc); [|done]. unfold redis_get, redis_setex.
      rewrite lookup_insert_eq. destruct (_ <? _); [|done].
      by intros [= <-].
    + destruct (up rc); [|done]. unfold redis_get in *.
      destruct (client !! _make_key job_id) as [[v expires]|]; [|done].
      destruct (clock rc_get <? expires); [|done]. injection Hget as ->.
      destruct (clock rc <? expires); [|done]. by intros [= <-].
  - rewrite lookup_insert_eq. by intros [= <-].
Qed.

Lemma update_job_keeps_identity_witness :
  Job.job_id
    (apply_update finished_job "2024-05-01T10:06:40" (Some (Plain "odd"))
       (Some (-5)) (Some "m") None (Some "e")) = "j1"
  /\ Job.video_filename
       (apply_update finished_job "2024-05-01T10:06:40" (Some (Plain "odd"))
          (Some (-5)) (Some "m") None (Some "e")) = "talk.mp4"
  /\ Job.target_language
       (apply_update finished_job "2024-05-01T10:06:40" (Some (Plain "odd"))
          (Some (-5)) (Some "m") None (Some "e")) = Some "id"
  /\ Job.created_at
       (apply_update finished_job "2024-05-01T10:06:40" (Some (Plain "odd"))
          (Some (-5)) (Some "m") None (Some "e")) = "2024-05-01T10:00:00".
Proof.
  apply (update_job_keeps_identity redis_store (at_time 400) (at_time 401)
           "2024-05-01T10:06:40" "j1" (Some (Plain "odd")) (Some (-5))
           (Some "m") None (Some "e") finished_job (at_time 402));
    reflexivity.
Defined.


(** X11.  [delete_job] answers true exactly when the job could be read at
    that moment; after a deletion that answered true the job is not found
    any more, and jobs under other ids are never affected. *)
Theorem delete_job_removes jm rc job_id :
  ((delete_job jm rc job_id).1 = true
   <-> is_Some (get_job jm rc job_id))
  /\ ((delete_job jm rc job_id).1 = true ->
      forall rc', get_job (delete_job jm rc job_id).2 rc' job_id = None)
  /\ (forall rc' other, other <> job_id ->
        get_job (delete_job jm rc job_id).2 rc' other
        = get_job jm rc' other).
Proof.
  unfold delete_job. destruct jm as [client|jobs]; simpl.
  - destruct (up rc) eqn:Hup; simpl.
    + unfold redis_delete.
      destruct (redis_get client (clock rc) (_make_key job_id)) as [v|] eqn:E;
        simpl.
      * split; [split; [by eexists|done]|]. split.
        -- intros _ rc'. destruct (up rc'); [|done].
           unfold redis_get. by rewrite lookup_delete_eq.
        -- intros rc' other Hne. destruct (up rc'); [|done].
           unfold redis_get. rewrite lookup_delete_ne; [done|].
           intros Hk. apply _make_key_inj in Hk. by subst.
      * split; [split; [done|by intros [? ?]]|]. split; [done|].
        intros rc' other Hne. destruct (up rc'); [|done].
        unfold redis_get. rewrite lookup_delete_ne; [done|].
        intros Hk. apply _make_key_inj in Hk. by subst.
    + split; [split; [done|by intros [? ?]]|]. by split.
  - destruct (jobs !! job_id) as [v|] eqn:E; simpl.
    + split; [split; [by eexists|done]|]. split.
      * intros _ _. apply lookup_delete_eq.
      * intros _ other Hne. by rewrite lookup_delete_ne.
    + split; [split; [done|by intros [? ?]]|]. by split.
Qed.

Lemma delete_job_removes_witness :
  (delete_job redis_store (at_time 500) "j1").1 = true
  /\ get_job (delete_job redis_store (at_time 500) "j1").2 (at_time 600) "j1"
     = None.
Proof.
  split; [reflexivity|].
  apply (delete_job_removes redis_store (at_time 500) "j1"). reflexivity.
Defined.





(** X14.  A manager that reached Redis when it was built has no in-memory
    store to fall back on: when Redis then fails inside [create_job], the
    handler's assignment to [_jobs] raises [AttributeError], no identifier
    is returned and nothing is stored.  A manager built without Redis
    never fails to create a job. *)
Theorem create_job_without_fallback db uuid4 created updated rc
    video_filename target_language :
  up rc = false ->
  create_job (init true db) uuid4 created updated rc video_filename
    target_language = (Raise AttributeError, init true db)
  /\ exists jm',
       create_job (init false db) uuid4 created updated rc video_filename
         target_language = (Ret uuid4, jm')
       /\ forall rc', is_Some (get_job jm' rc' uuid4).
Proof.
  intros Hdown. split.
  - simpl. by rewrite Hdown.
  - eexists. split; [reflexivity|]. intros rc'. simpl.
    rewrite lookup_insert_eq. by eexists.
Qed.

Lemma create_job_without_fallback_witness :
  create_job (init true ∅) "j3" "2024-05-01T10:00:00" "2024-05-01T10:00:00"
    {| up := false; clock := 7 |} "talk.mp4" None
  = (Raise AttributeError, init true ∅)
  /\ exists jm',
       create_job (init false ∅) "j3" "2024-05-01T10:00:00"
         "2024-05-01T10:00:00" {| up := false; clock := 7 |} "talk.mp4" None
       = (Ret "j3", jm')
       /\ forall rc', is_Some (get_job jm' rc' "j3").
Proof.
  apply (create_job_without_fallback ∅ "j3" "2024-05-01T10:00:00"
           "2024-05-01T10:00:00" {| up := false; clock := 7 |} "talk.mp4"
           None).
  reflexivity.
Defined.

(** ** The backend wrapper: when a result comes back *)




(** ** The transcription cache *)



(** X17.  The cache does not tell apart a missing target language, an
    empty one and the language named "original": the three use one key, so
    a result stored for one of them is what [get] returns for the others,
    and deleting one deletes all. *)
Theorem cache_original_language md5 (self : RedisCache.t) rc rc' video_path
    result ttl (l l' : option string) :
  l ∈ [None; Some ""; Some "original"] ->
  l' ∈ [None; Some ""; Some "original"] ->
  RedisCache._generate_key md5 video_path l
  = RedisCache._generate_key md5 video_path l'
  /\ RedisCache.get md5 (RedisCache.set md5 self rc video_path result l ttl)
       rc' video_path l'
     = RedisCache.get md5 (RedisCache.set md5 self rc video_path result l ttl)
         rc' video_path l
  /\ RedisCache.delete md5 self rc video_path l
     = RedisCache.delete md5 self rc video_path l'.
Proof.
  intros Hl Hl'.
  assert (Hk : RedisCache._generate_key md5 video_path l
               = RedisCache._generate_key md5 video_path l').
  { rewrite !elem_of_cons, elem_of_nil in Hl, Hl'.
    destruct Hl as [->|[->|[->|[]]]], Hl' as [->|[->|[->|[]]]]; reflexivity. }
  split; [done|]. unfold RedisCache.get, RedisCache.delete.
  by rewrite Hk.
Qed.

Lemma cache_original_language_witness :
  RedisCache.get (fun s => s)
    (RedisCache.set (fun s => s) (RedisCache.init None true ∅) (at_time 10)
       "/uploads/talk.mp4" [("total_segments", JInt 3)] None None)
    (at_time 20) "/uploads/talk.mp4" (Some "original")
  = RedisCache.get (fun s => s)
      (RedisCache.set (fun s => s) (RedisCache.init None true ∅) (at_time 10)
         "/uploads/talk.mp4" [("total_segments", JInt 3)] None None)
      (at_time 20) "/uploads/talk.mp4" None.
Proof.
  apply (cache_original_language (fun s => s) (RedisCache.init None true ∅)
           (at_time 10) (at_time 20) "/uploads/talk.mp4"
           [("total_segments", JInt 3)] None None (Some "original")).
  - apply elem_of_cons. by left.
  - apply elem_of_cons. right. apply elem_of_cons. right.
    apply elem_of_cons. by left.
Defined.

(** X18.  [set] and [delete] change one entry only: an entry whose key is
    another one is returned by [get] as before; and after a [delete] that
    reached the server the entry itself is not found. *)
Theorem cache_other_entries md5 (self : RedisCache.t) rc rc' video_path
    result target_language ttl video_path' target_language' :
  RedisCache._generate_key md5 video_path' target_language'
  <> RedisCache._generate_key md5 video_path target_language ->
  RedisCache.get md5
    (RedisCache.set md5 self rc video_path result target_language ttl)
    rc' video_path' target_language'
  = RedisCache.get md5 self rc' video_path' target_language'
  /\ RedisCache.get md5
       (RedisCache.delete md5 self rc video_path target_language)
       rc' video_path' target_language'
     = RedisCache.get md5 self rc' video_path' target_language'
  /\ (up rc = true ->
      RedisCache.get md5
        (RedisCache.delete md5 self rc video_path target_language)
        rc' video_path target_language = None).
Proof.
  intros Hne. unfold RedisCache.get, RedisCache.set, RedisCache.delete.
  destruct (RedisCache.client self) as [db|] eqn:Hc; [|by rewrite Hc].
  destruct (up rc) eqn:Hup; simpl.
  - split; [|split].
    + unfold redis_setex_checked. destruct (0 <? _); simpl; [|by rewrite Hc].
      destruct (up rc'); [|done]. unfold redis_get_live.
      by rewrite lookup_insert_ne.
    + destruct (up rc'); [|done]. unfold redis_get_live.
      by rewrite lookup_delete_ne.
    + intros _. destruct (up rc'); [|done]. unfold redis_get_live.
      by rewrite lookup_delete_eq.
  - rewrite Hc. by split; [|split].
Qed.

Lemma cache_other_entries_witness :
  RedisCache.get (fun s => s)
    (RedisCache.delete (fun s => s) (RedisCache.init None true ∅)
       (at_time 10) "/uploads/talk.mp4" None)
    (at_time 20) "/uploads/talk.mp4" None = None.
Proof.
  apply (cache_other_entries (fun s => s) (RedisCache.init None true ∅)
           (at_time 10) (at_time 20) "/uploads/talk.mp4" [] None None
           "/uploads/other.mp4" None).
  - vm_compute. discriminate.
  - reflexivity.
Defined.

(** ** The database pool *)

Example parse_slave_hosts_example :
  DatabaseConnectionPool.parse_slave_hosts " db1 , ,db2," = ["db1"; "db2"]
  /\ DatabaseConnectionPool.parse_slave_hosts "" = []
  /\ py_split "," "" = [""].
Proof. by vm_compute. Qed.





Lemma choice_nonempty {A} (draw : nat) (seq : list A) :
  seq <> [] ->
  exists x, DatabaseConnectionPool.choice draw seq = Ret x /\ x ∈ seq.
Proof.
  intros Hne. unfold DatabaseConnectionPool.choice.
  assert (Hlt : (draw `mod` length seq < length seq)%nat).
  { apply Nat.mod_upper_bound. by destruct seq. }
  apply lookup_lt_is_Some in Hlt as [x Hx]. rewrite Hx.
  exists x. split; [done|]. by apply list_elem_of_lookup_2 in Hx.
Qed.

(** X21.  On a pool built by [__init__], whatever the environment and the
    draw, the session for reading is bound to one of the pool's read
    engines, and the only call made on it is one [close]: it never commits
    and never rolls back.  The statement ends as its body does, unless
    [close] raises. *)
Theorem slave_session_protocol {A} (env : DatabaseConnectionPool.Environ)
    (draw : nat) (s : SessionEnv) (body : outcome A) :
  exists engine,
    DatabaseConnectionPool.get_slave_session
      (DatabaseConnectionPool.init env) draw s body
    = (match close_result s with
       | Ret _ => body
       | Raise e => Raise e
       end, Some engine, [Close])
    /\ engine ∈ DatabaseConnectionPool.slave_engines
                  (DatabaseConnectionPool.init env).
Proof.
  unfold DatabaseConnectionPool.get_slave_session.
  destruct (choice_nonempty draw
              (DatabaseConnectionPool.slave_engines
                 (DatabaseConnectionPool.init env))) as (engine & Hc & Hin).
  { unfold DatabaseConnectionPool.init. simpl.
    by destruct (DatabaseConnectionPool.parse_slave_hosts _). }
  rewrite Hc. exists engine. split; [|done].
  unfold DatabaseConnectionPool.finally_close.
  by destruct (close_result s).
Qed.

(** ** The audio file of a chunk *)

Lemma pretty_N_go_free (c : ascii) (x : N) (s : string) :
  (forall d, (d < 10)%N -> pretty_N_char d <> c) ->
  has_char c s = false -> has_char c (pretty_N_go x s) = false.
Proof.
  intros Hc. revert s. induction (N.lt_wf_0 x) as [x _ IH]; intros s Hs.
  assert (x = 0 \/ 0 < x)%N as [->|Hx] by lia.
  - by rewrite pretty_N_go_0.
  - rewrite pretty_N_go_step by done. apply IH; [by apply N.div_lt|].
    simpl. rewrite Hs, orb_false_r. apply Ascii.eqb_neq, Hc.
    by apply N.mod_lt.
Qed.

Lemma pretty_Z_free (c : ascii) (z : Z) :
  c = "_"%char \/ c = "."%char -> has_char c (pretty z) = false.
Proof.
  intros Hc.
  assert (Hd : forall d, (d < 10)%N -> pretty_N_char d <> c).
  { intros d _. unfold pretty_N_char.
    destruct Hc as [->| ->]; by repeat case_match. }
  assert (Hp : forall p : positive, has_char c (pretty p) = false).
  { intros p. unfold pretty, pretty_positive, pretty, pretty_N.
    case_decide; [done|]. by apply pretty_N_go_free. }
  destruct z as [|p|p].
  - destruct Hc as [->| ->]; reflexivity.
  - apply Hp.
  - change (has_char c (String "-" (pretty p)) = false).
    cbn [has_char]. rewrite Hp, orb_false_r.
    destruct Hc as [->| ->]; reflexivity.
Qed.

(** Two strings that are free of a character and are followed by it split
    a string at the same place. *)
Lemma split_at_char (c : ascii) (a a' x x' : string) :
  has_char c a = false -> has_char c a' = false ->
  a +:+ String c x = a' +:+ String c x' -> a = a' /\ x = x'.
Proof.
  revert a'. induction a as [|h a IH]; intros [|h' a'] Ha Ha' Heq;
    simpl in *.
  - by injection Heq as ->.
  - injection Heq as <- _. by rewrite Ascii.eqb_refl in Ha'.
  - injection Heq as -> _. by rewrite Ascii.eqb_refl in Ha.
  - injection Heq as -> Heq. apply orb_false_elim in Ha as [_ Ha].
    apply orb_false_elim in Ha' as [_ Ha'].
    destruct (IH a' Ha Ha' Heq) as [-> ->]. done.
Qed.

(** X22.  The audio file of a chunk is named after the chunk id and the
    rank, and no two pairs of chunk id and rank share a name: workers, and
    chunks on one worker, never extract into the same file. *)
Theorem audio_chunk_path_inj (chunk_id rank chunk_id' rank' : Z) :
  audio_chunk_path chunk_id rank = audio_chunk_path chunk_id' rank' ->
  chunk_id = chunk_id' /\ rank = rank'.
Proof.
  unfold audio_chunk_path. intros Heq.
  apply (String.app_inj "/mpi/workspace/chunk_") in Heq.
  change ("_rank_" +:+ ?s) with (String "_" ("rank_" +:+ s)) in Heq.
  apply split_at_char in Heq as [Hc Heq];
    [|apply pretty_Z_free; by left..].
  apply (String.app_inj "rank_") in Heq.
  change (".wav") with (String "." "wav") in Heq.
  apply split_at_char in Heq as [Hr _];
    [|apply pretty_Z_free; by right..].
  split; by apply (inj pretty).
Qed.

Lemma audio_chunk_path_inj_witness : 1 = 1 /\ 2 = 2.
Proof.
  apply (audio_chunk_path_inj 1 2 1 2). reflexivity.
Defined.

(** ** A job right after its creation *)

(** X23.  [create_job] returns the identifier it drew and stores a job
    that is pending, at progress 0, with the fixed first message and with
    neither result nor error; reading the job under the returned
    identifier gives exactly this record, when the store takes the calls
    (for Redis: the read reaches the server within 24 hours). *)
Theorem create_job_get_job jm uuid4 created updated rc video_filename
    target_language job_id jm' rc' :
  create_job jm uuid4 created updated rc video_filename target_language
  = (Ret job_id, jm') ->
  sees jm rc rc' ->
  job_id = uuid4
  /\ get_job jm' rc' job_id
     = Some {| Job.job_id := job_id;
               Job.status := value PENDING;
               Job.video_filename := video_filename;
               Job.target_language := target_language;
               Job.created_at := created;
               Job.updated_at := updated;
               Job.progress := 0;
               Job.message := "Job created, waiting to start...";
               Job.result := None;
               Job.error := None |}.
Proof.
  intros Hcreate Hsees.
  apply create_job_found in Hcreate as (-> & _ & _ & Hread).
  split; [done|]. by apply Hread.
Qed.

Lemma create_job_get_job_witness :
  "j4" = "j4"
  /\ get_job
       (create_job (RedisBacked ∅) "j4" "2024-05-01T10:00:00"
          "2024-05-01T10:00:01" (at_time 50) "talk.mp4" (Some "id")).2
       (at_time 86449) "j4"
     = Some {| Job.job_id := "j4";
               Job.status := value PENDING;
               Job.video_filename := "talk.mp4";
               Job.target_language := Some "id";
               Job.created_at := "2024-05-01T10:00:00";
               Job.updated_at := "2024-05-01T10:00:01";
               Job.progress := 0;
               Job.message := "Job created, waiting to start...";
               Job.result := None;
               Job.error := None |}.
Proof.
  apply (create_job_get_job (RedisBacked ∅) "j4" "2024-05-01T10:00:00"
           "2024-05-01T10:00:01" (at_time 50) "talk.mp4" (Some "id") "j4"
           _ (at_time 86449)).
  - reflexivity.
  - intros _. split; [reflexivity|]. unfold job_ttl. simpl. lia.
Defined.
